(** * The workshop review database: schema, setup notebook and review queue

    The repository keeps its data in a DuckDB file with four tables.  The
    notebook [notebooks/db_tools.ipynb] (repeated in the README) creates the
    tables, loads two CSV files and dumps every table to a Parquet file.

    This development embeds
    - the table definitions of [tbl_schema], as the list of [CREATE TABLE]
      statements that the text denotes;
    - the SQL statements the notebook issues, with the meaning DuckDB gives
      them: a catalog that compares names without regard to case, positional
      binding of [INSERT ... SELECT *], conversion of every value to the type
      of its column, constraint checks, one statement being one transaction;
    - the notebook cells, as programs in a small exception-and-state monad
      over the database and the Parquet files written next to it;
    - the queries of the review application, whose source is not part of
      the listing and which are modelled from the specification.

    What the engine does with a single value (how it reads a number or a
    date out of text, how it rounds a float) and which words it reserves is
    not code of this repository.  It enters as the interface [Engine]: a
    conversion function and a reserved-word test, with the few facts about
    them that the development uses.  Every theorem holds for every engine
    with these facts; the examples run on [example_engine]. *)

From Stdlib Require Import ZArith String Ascii List Bool Lia DecimalString.
From stdpp Require Import base option list gmap strings sorting.

Local Open Scope string_scope.
Local Open Scope list_scope.
Local Open Scope Z_scope.

(** ** Values and types *)

(** The three column types that occur in [tbl_schema]. *)
Inductive sqltype : Type := INTEGER | VARCHAR | TIMESTAMP.

(** A point in time, kept as its calendar fields. *)
Record timestamp : Type := Timestamp {
  ts_year : nat; ts_month : nat; ts_day : nat;
  ts_hour : nat; ts_minute : nat; ts_second : nat
}.

(** A value stored in a table. *)
Inductive value : Type :=
| NULL
| VInt (z : Z)
| VStr (s : string)
| VTime (t : timestamp).

(** A value that arrives from Python: a cell of the DataFrame that
    [pd.read_csv] returned, or a statement parameter.  [pd.read_csv] gives a
    column of integers, of floats (kept here as the 64 bits of the double),
    of booleans or of objects (text, with [None] for a missing value). *)
Inductive pyval : Type :=
| PyNone
| PyInt (z : Z)
| PyFloat (bits : Z)
| PyBool (b : bool)
| PyStr (s : string).

Definition row : Type := list value.

#[global] Instance sqltype_eq_dec : EqDecision sqltype.
Proof. solve_decision. Defined.
#[global] Instance timestamp_eq_dec : EqDecision timestamp.
Proof. solve_decision. Defined.
#[global] Instance value_eq_dec : EqDecision value.
Proof. solve_decision. Defined.
#[global] Instance pyval_eq_dec : EqDecision pyval.
Proof. solve_decision. Defined.

(** The range of an [INTEGER] column. *)
Definition in_int32 (z : Z) : bool :=
  (-2147483648 <=? z) && (z <=? 2147483647).

(** A value that a column of type [ty] can hold. *)
Definition has_type (ty : sqltype) (v : value) : Prop :=
  match v, ty with
  | NULL, _ => True
  | VInt z, INTEGER => in_int32 z = true
  | VStr _, VARCHAR => True
  | VTime _, TIMESTAMP => True
  | _, _ => False
  end.

(** ** Table definitions *)

(** The constraints a [CREATE TABLE] statement can declare, each over named
    columns of the table. *)
Inductive constraint : Type :=
| NOT_NULL (c : string)
| UNIQUE (cs : list string)
| PRIMARY_KEY (cs : list string)
| FOREIGN_KEY (cs : list string) (ref_table : string) (ref_cs : list string).

Record table_def : Type := TableDef {
  tbl_name : string;
  tbl_columns : list (string * sqltype);
  tbl_constraints : list constraint
}.

(** [CREATE TABLE tbl_log (...)] *)
Definition tbl_log : table_def :=
  {| tbl_name := "tbl_log";
     tbl_columns :=
       [ ("reviewer_id", INTEGER);
         ("document_id", INTEGER);
         ("conflict", VARCHAR) ];
     tbl_constraints := [] |}.

(** [CREATE TABLE tbl_response (...)] *)
Definition tbl_response : table_def :=
  {| tbl_name := "tbl_response";
     tbl_columns :=
       [ ("reviewer_id", INTEGER);
         ("reviewer_name", VARCHAR);
         ("document_id", INTEGER);
         ("alignment", INTEGER);
         ("science", INTEGER);
         ("benefits", INTEGER);
         ("comments", VARCHAR);
         ("screening_order", INTEGER) ];
     tbl_constraints := [] |}.

(** [CREATE TABLE tbl_reviewer (...)] *)
Definition tbl_reviewer : table_def :=
  {| tbl_name := "tbl_reviewer";
     tbl_columns :=
       [ ("reviewer_id", INTEGER);
         ("reviewer_name", VARCHAR) ];
     tbl_constraints := [] |}.

(** [CREATE TABLE tbl_source (...)] *)
Definition tbl_source : table_def :=
  {| tbl_name := "tbl_source";
     tbl_columns :=
       [ ("document_id", INTEGER);
         ("submission_timestamp", TIMESTAMP);
         ("email", VARCHAR);
         ("first_name", VARCHAR);
         ("last_name", VARCHAR);
         ("phone", VARCHAR);
         ("institution", VARCHAR);
         ("authors", VARCHAR);
         ("title", VARCHAR);
         ("abstract", VARCHAR);
         ("biosketch", VARCHAR);
         ("leverage_plan", VARCHAR);
         ("student", VARCHAR);
         ("early_career", VARCHAR);
         ("registration_waiver", VARCHAR);
         ("travel_award", VARCHAR);
         ("poster_competition", VARCHAR);
         ("breakout_sessions", VARCHAR) ];
     tbl_constraints := [] |}.

(** The four statements of the schema text, in the order they are written. *)
Definition tbl_schema : list table_def :=
  [tbl_log; tbl_response; tbl_reviewer; tbl_source].

(** ** Names *)

Definition lower_ascii (c : ascii) : ascii :=
  let n := nat_of_ascii c in
  if ((65 <=? n) && (n <=? 90))%nat then ascii_of_nat (n + 32) else c.

Fixpoint lowercase (s : string) : string :=
  match s with
  | EmptyString => EmptyString
  | String c s' => String (lower_ascii c) (lowercase s')
  end.

(** The catalog compares names without regard to case. *)
Definition same_name (a b : string) : Prop := lowercase a = lowercase b.

#[global] Instance same_name_dec a b : Decision (same_name a b).
Proof. unfold same_name. apply _. Defined.

Definition is_digit (c : ascii) : bool :=
  let n := nat_of_ascii c in ((48 <=? n) && (n <=? 57))%nat.

Fixpoint has_digit (s : string) : bool :=
  match s with
  | EmptyString => false
  | String c s' => is_digit c || has_digit s'
  end.

(** ** The engine *)

(** What the development takes from the database engine without modelling
    it: the conversion [INSERT] applies to a value bound for a column of type
    [ty] ([None] is a conversion error), and the words that cannot be used as
    a bare name.  The facts: a missing value becomes NULL; a converted value
    has the type of the column; an integer goes into an [INTEGER] column
    unchanged when it is in range and is an error when it is not; text goes
    into a [VARCHAR] column unchanged; text without any digit is no integer;
    none of the four table names is reserved. *)
Class Engine : Type := {
  cast : sqltype -> pyval -> option value;
  reserved_word : string -> bool;
  cast_none : forall ty, cast ty PyNone = Some NULL;
  cast_typed : forall ty v v', cast ty v = Some v' -> has_type ty v';
  cast_integer : forall z,
    cast INTEGER (PyInt z) = if in_int32 z then Some (VInt z) else None;
  cast_varchar : forall s, cast VARCHAR (PyStr s) = Some (VStr s);
  cast_integer_text : forall s,
    has_digit s = false -> cast INTEGER (PyStr s) = None;
  schema_names_free : forall d,
    d ∈ tbl_schema -> reserved_word (lowercase (tbl_name d)) = false
}.

(** ** The database and the files around it *)

Record table : Type := Table {
  tdef : table_def;
  trows : list row
}.

(** What a Parquet file holds: the column headers and the rows. *)
Record parquet : Type := Parquet {
  pq_columns : list (string * sqltype);
  pq_rows : list row
}.

(** A DataFrame: column labels and rows of cells. *)
Record dataframe : Type := DataFrame {
  df_columns : list string;
  df_rows : list (list pyval)
}.

(** The content of the database file [db_file] (its tables, in creation
    order) and the Parquet files that [COPY] has written, by path.  The CSV
    files are inputs: they enter the import cell as the DataFrames read from
    them. *)
Record world : Type := World {
  db : list table;
  files : gmap string parquet
}.

Definition empty_world : world := {| db := []; files := ∅ |}.

Definition find_table (name : string) (cat : list table) : option table :=
  List.find (fun t => bool_decide (same_name (tbl_name (tdef t)) name)) cat.

(** Replace the rows of the table called [name]. *)
Fixpoint set_rows (name : string) (rs : list row) (cat : list table) : list table :=
  match cat with
  | [] => []
  | t :: cat' =>
      if bool_decide (same_name (tbl_name (tdef t)) name)
      then {| tdef := tdef t; trows := rs |} :: cat'
      else t :: set_rows name rs cat'
  end.

(** The rows of a table; a table that does not exist has none. *)
Definition table_rows (w : world) (name : string) : list row :=
  match find_table name (db w) with
  | Some t => trows t
  | None => []
  end.

(** The names of the tables of the database, in creation order. *)
Definition table_names (w : world) : list string :=
  map (fun t => tbl_name (tdef t)) (db w).

(** A table as [CREATE TABLE] leaves it. *)
Definition empty_table (d : table_def) : table := {| tdef := d; trows := [] |}.

(** The content [COPY] writes for a table. *)
Definition snapshot (t : table) : parquet :=
  {| pq_columns := tbl_columns (tdef t); pq_rows := trows t |}.

(** A database whose tables are those of the schema. *)
Definition built (w : world) : Prop := map tdef (db w) = tbl_schema.

(** A database before and after "build database". *)
Definition empty_or_built (w : world) : Prop := db w = [] \/ built w.

(** ** Constraint checks *)

Fixpoint index_of (c : string) (names : list string) : option nat :=
  match names with
  | [] => None
  | n :: names' => if bool_decide (n = c) then Some 0%nat else S <$> index_of c names'
  end.

Definition col_index (d : table_def) (c : string) : option nat :=
  index_of c (map fst (tbl_columns d)).

(** The value a row holds in the column called [c]. *)
Definition field (d : table_def) (c : string) (r : row) : value :=
  default NULL (i ← col_index d c; r !! i).

Definition key (d : table_def) (cs : list string) (r : row) : list value :=
  map (fun c => field d c r) cs.

Definition is_null (v : value) : bool := bool_decide (v = NULL).

Definition has_key (d : table_def) (cs : list string) (k : list value)
    (rs : list row) : bool :=
  existsb (fun r' => bool_decide (key d cs r' = k)) rs.

(** Does the table [t] of the catalog [cat] accept the new row [r] under the
    constraint [c]?  A key with a NULL in it never collides and never has to
    be found in the referenced table. *)
Definition check_constraint (cat : list table) (t : table) (r : row)
    (c : constraint) : bool :=
  match c with
  | NOT_NULL col => negb (is_null (field (tdef t) col r))
  | UNIQUE cs =>
      let k := key (tdef t) cs r in
      existsb is_null k || negb (has_key (tdef t) cs k (trows t))
  | PRIMARY_KEY cs =>
      let k := key (tdef t) cs r in
      negb (existsb is_null k) && negb (has_key (tdef t) cs k (trows t))
  | FOREIGN_KEY cs ref_table ref_cs =>
      let k := key (tdef t) cs r in
      existsb is_null k ||
      match find_table ref_table cat with
      | Some t' => has_key (tdef t') ref_cs k (trows t')
      | None => false
      end
  end.

Definition accepts (cat : list table) (t : table) (r : row) : bool :=
  forallb (check_constraint cat t r) (tbl_constraints (tdef t)).

(** Append the rows one after the other, each checked against the table as
    it stands with the rows before it; [None] is a constraint violation. *)
Fixpoint append_rows (cat : list table) (t : table) (rs : list row) : option table :=
  match rs with
  | [] => Some t
  | r :: rs' =>
      if accepts cat t r
      then append_rows cat {| tdef := tdef t; trows := trows t ++ [r] |} rs'
      else None
  end.

(** ** Statements *)

Inductive error : Type :=
| ParserException
| CatalogException
| BinderException
| ConversionException
| ConstraintException.

(** A program that reads and writes the world and may raise.  What was
    written before an exception stays written. *)
Definition cell (A : Type) : Type := world -> (error + A) * world.

Definition ret {A} (a : A) : cell A := fun w => (inr a, w).
Definition raise {A} (e : error) : cell A := fun w => (inl e, w).
Definition bind {A B} (m : cell A) (k : A -> cell B) : cell B :=
  fun w => match m w with
           | (inr a, w') => k a w'
           | (inl e, w') => (inl e, w')
           end.

#[global] Instance cell_ret : MRet cell := @ret.
#[global] Instance cell_bind : MBind cell := fun A B k m => bind m k.

(** [for x in xs: body(x)] *)
Fixpoint for_each {A} (xs : list A) (body : A -> cell unit) : cell unit :=
  match xs with
  | [] => ret tt
  | x :: xs' => _ ← body x; for_each xs' body
  end.

(** The world a program leaves behind, whether it raised or not. *)
Definition after {A} (m : cell A) (w : world) : world := snd (m w).

(** The statements the notebook and the application send to the database. *)
Inductive statement : Type :=
| CREATE_TABLE (d : table_def)
    (* CREATE TABLE name (columns) *)
| INSERT_SELECT (target : string) (df : dataframe)
    (* INSERT INTO target SELECT * FROM df *)
| INSERT_VALUES (target : string) (params : list pyval)
    (* INSERT INTO target VALUES (?, ..., ?) *)
| SHOW_TABLES
| DESCRIBE (name : string)
| SELECT_ALL (name : string)
    (* SELECT * FROM name *)
| COPY_TO (name : string) (path : string).
    (* COPY (SELECT * FROM name) TO 'path' (FORMAT 'parquet') *)

(** One line of [DESCRIBE]: column name, column type, null, key, default,
    extra. *)
Definition describe_row : Type :=
  (string * string * string * option string * option string * option string)%type.

(** The "null" entry of a [DESCRIBE] line. *)
Definition dr_null (line : describe_row) : string :=
  snd (fst (fst (fst line))).

Inductive answer : Type :=
| NoResult
| Names (l : list string)
| Rows (l : list row)
| Description (l : list describe_row).

Definition type_name (ty : sqltype) : string :=
  match ty with
  | INTEGER => "INTEGER"
  | VARCHAR => "VARCHAR"
  | TIMESTAMP => "TIMESTAMP"
  end.

Definition in_primary_key (d : table_def) (c : string) : bool :=
  existsb (fun k => match k with
                    | PRIMARY_KEY cs => bool_decide (c ∈ cs)
                    | _ => false
                    end) (tbl_constraints d).

Definition declared_not_null (d : table_def) (c : string) : bool :=
  existsb (fun k => match k with
                    | NOT_NULL c' => bool_decide (c' = c)
                    | _ => false
                    end) (tbl_constraints d).

Definition declared_unique (d : table_def) (c : string) : bool :=
  existsb (fun k => match k with
                    | UNIQUE cs => bool_decide (cs = [c])
                    | _ => false
                    end) (tbl_constraints d).

Definition describe (d : table_def) : list describe_row :=
  map (fun c : string * sqltype =>
         (fst c, type_name (snd c),
          if in_primary_key d (fst c) || declared_not_null d (fst c)
          then "NO" else "YES",
          if in_primary_key d (fst c) then Some "PRI"
          else if declared_unique d (fst c) then Some "UNI" else None,
          None, None))
      (tbl_columns d).

(** The table a foreign key points to has to exist. *)
Definition references_exist (cat : list table) (d : table_def) : bool :=
  forallb (fun k => match k with
                    | FOREIGN_KEY _ ref_table _ =>
                        bool_decide (is_Some (find_table ref_table cat)
                                     ∨ same_name ref_table (tbl_name d))
                    | _ => true
                    end) (tbl_constraints d).

Definition is_insert (s : statement) : bool :=
  match s with
  | INSERT_SELECT _ _ | INSERT_VALUES _ _ => true
  | _ => false
  end.

(** The table a statement inserts into, if it is an [INSERT]. *)
Definition insert_target (s : statement) : option string :=
  match s with
  | INSERT_SELECT target _ | INSERT_VALUES target _ => Some target
  | _ => None
  end.

Definition is_create (s : statement) : bool :=
  match s with
  | CREATE_TABLE _ => true
  | _ => false
  end.

(** ** Relations between worlds *)

(** [w'] has every row of [w], in place, and possibly more after them. *)
Definition extends (w w' : world) : Prop :=
  forall name, exists added, table_rows w' name = table_rows w name ++ added.

(** [w'] has the rows of [w] and no others. *)
Definition same_rows (w w' : world) : Prop :=
  forall name, table_rows w' name = table_rows w name.

(** [w'] has the database of [w]. *)
Definition same_db (w w' : world) : Prop := db w' = db w.

(** [w'] has the rows of [w] in the table [name]. *)
Definition keeps (name : string) (w w' : world) : Prop :=
  table_rows w' name = table_rows w name.

(** [w'] has the tables of [w], whatever their rows. *)
Definition same_defs (w w' : world) : Prop :=
  map tdef (db w') = map tdef (db w).

Definition row_conforms (cols : list (string * sqltype)) (r : row) : Prop :=
  Forall2 (fun c v => has_type (snd c) v) cols r.

(** Every stored row has one value of the right type per column. *)
Definition db_conforms (w : world) : Prop :=
  Forall (fun t => Forall (row_conforms (tbl_columns (tdef t))) (trows t)) (db w).

(** ** Paths *)

Definition starts_with_sep (s : string) : bool :=
  match s with
  | String c _ => bool_decide (c = "/"%char)
  | EmptyString => false
  end.

Fixpoint ends_with_sep (s : string) : bool :=
  match s with
  | EmptyString => false
  | String c EmptyString => bool_decide (c = "/"%char)
  | String _ s' => ends_with_sep s'
  end.

(** [os.path.join(a, b)] on a POSIX system. *)
Definition os_path_join (a b : string) : string :=
  if starts_with_sep b then b
  else if bool_decide (a = "") || ends_with_sep a then a +:+ b
  else a +:+ "/" +:+ b.

(** "directory structure": [os.path.join(data_directory, "data.duckdb")] and
    the two input files. *)
Definition db_file (data_directory : string) : string :=
  os_path_join data_directory "data.duckdb".

Definition tbl_reviewer_file (data_directory : string) : string :=
  os_path_join data_directory "tbl_reviewers.csv".

Definition tbl_source_file (data_directory : string) : string :=
  os_path_join data_directory "tbl_source.csv".

(** [os.path.join(data_directory, f"data_{table[0]}.parquet")] *)
Definition dumped_db_file (data_directory table0 : string) : string :=
  os_path_join data_directory ("data_" +:+ table0 +:+ ".parquet").

(** ** Statement text built by interpolation *)

(** The characters of a bare SQL name: a letter, an underscore or a byte
    above ASCII first, then these, digits and the dollar sign. *)
Definition identifier_start (c : ascii) : bool :=
  let n := nat_of_ascii c in
  ((65 <=? n) && (n <=? 90) || (97 <=? n) && (n <=? 122)
   || (n =? 95) || (128 <=? n))%nat.

Definition identifier_char (c : ascii) : bool :=
  identifier_start c || is_digit c || bool_decide (c = "$"%char).

Fixpoint all_chars (p : ascii -> bool) (s : string) : bool :=
  match s with
  | EmptyString => true
  | String c s' => p c && all_chars p s'
  end.

Definition identifier_shape (s : string) : bool :=
  match s with
  | EmptyString => false
  | String c s' => identifier_start c && all_chars identifier_char s'
  end.

(** No single quote in the text. *)
Definition quote_free (s : string) : bool :=
  all_chars (fun c => negb (bool_decide (c = "'"%char))) s.

(** ** The model of the engine at work *)

Ltac names_differ :=
  let H := fresh in intros H; vm_compute in H; discriminate H.

Section Model.

Context {engine : Engine}.

(** Values are bound to columns by position: the j-th value goes to the j-th
    column.  The column names play no part. *)
Fixpoint cast_row (cols : list (string * sqltype)) (r : list pyval) : option row :=
  match cols, r with
  | [], [] => Some []
  | c :: cols', v :: r' =>
      v' ← cast (snd c) v; vs ← cast_row cols' r'; Some (v' :: vs)
  | _, _ => None
  end.

Definition cast_rows (cols : list (string * sqltype)) (rs : list (list pyval))
  : option (list row) :=
  mapM (cast_row cols) rs.

(** A DataFrame fits the table [d] when it has as many columns and every
    value converts; [fits d df] is then the list of converted rows. *)
Definition fits (d : table_def) (df : dataframe) : option (list row) :=
  if bool_decide (length (df_columns df) = length (tbl_columns d))
  then cast_rows (tbl_columns d) (df_rows df) else None.

(** The error of an [INSERT ... SELECT *] whose DataFrame does not fit a
    table with [width] columns: the column count is checked before any value
    is converted. *)
Definition import_error (width : nat) (df : dataframe) : error :=
  if bool_decide (length (df_columns df) = width)
  then ConversionException else BinderException.

(** Insert converted rows into [target], or raise and change nothing. *)
Definition insert_into (target : string) (width : nat)
    (rs : list (list pyval)) : cell answer :=
  fun w =>
    match find_table target (db w) with
    | None => (inl CatalogException, w)
    | Some t =>
        if negb (bool_decide (width = length (tbl_columns (tdef t))))
        then (inl BinderException, w)
        else match cast_rows (tbl_columns (tdef t)) rs with
             | None => (inl ConversionException, w)
             | Some rs' =>
                 match append_rows (db w) t rs' with
                 | None => (inl ConstraintException, w)
                 | Some t' =>
                     (inr NoResult,
                      {| db := set_rows target (trows t') (db w);
                         files := files w |})
                 end
             end
    end.

(** [con.execute(statement)] *)
Definition execute (s : statement) : cell answer :=
  match s with
  | CREATE_TABLE d =>
      fun w =>
        if bool_decide (is_Some (find_table (tbl_name d) (db w)))
           || negb (references_exist (db w) d)
        then (inl CatalogException, w)
        else (inr NoResult,
              {| db := db w ++ [{| tdef := d; trows := [] |}];
                 files := files w |})
  | INSERT_SELECT target df =>
      insert_into target (length (df_columns df)) (df_rows df)
  | INSERT_VALUES target params =>
      insert_into target (length params) [params]
  | SHOW_TABLES =>
      fun w => (inr (Names (merge_sort String.le (map (fun t => tbl_name (tdef t)) (db w)))), w)
  | DESCRIBE name =>
      fun w => match find_table name (db w) with
               | Some t => (inr (Description (describe (tdef t))), w)
               | None => (inl CatalogException, w)
               end
  | SELECT_ALL name =>
      fun w => match find_table name (db w) with
               | Some t => (inr (Rows (trows t)), w)
               | None => (inl CatalogException, w)
               end
  | COPY_TO name path =>
      fun w => match find_table name (db w) with
               | Some t =>
                   (inr NoResult,
                    {| db := db w;
                       files := <[path := snapshot t]> (files w) |})
               | None => (inl CatalogException, w)
               end
  end.

(** What an [INSERT] does, case by case. *)
Inductive insert_outcome (target : string) (width : nat)
    (rs : list (list pyval)) (w : world) : (error + answer) * world -> Prop :=
| insert_raises e :
    insert_outcome target width rs w (inl e, w)
| insert_appends t rs' :
    find_table target (db w) = Some t ->
    width = length (tbl_columns (tdef t)) ->
    cast_rows (tbl_columns (tdef t)) rs = Some rs' ->
    insert_outcome target width rs w
      (inr NoResult,
       {| db := set_rows target (trows t ++ rs') (db w); files := files w |}).

(** The world with the rows [rs] added at the end of the table [name]. *)
Definition append_to (name : string) (rs : list row) (w : world) : world :=
  {| db := set_rows name (table_rows w name ++ rs) (db w); files := files w |}.

(** The states that sequences of statements lead to. *)
Definition execute_all (ss : list statement) (w : world) : world :=
  fold_left (fun w' s => after (execute s) w') ss w.

(** A bare name: the shape of one, and not a reserved word. *)
Definition unquoted_identifier (s : string) : bool :=
  identifier_shape s && negb (reserved_word (lowercase s)).

(** The statement that the text
    [COPY (SELECT * FROM {table0}) TO '{path}' (FORMAT 'parquet')] denotes
    once the f-string has put the table name and the path in: the [COPY] of
    that table to that path when the name is a bare name and the path holds
    no quote.  A name that is not bare (a reserved word, say) and a path
    with a quote in it do not give this statement; for them the model has
    the parser reject the text, which is what it does with a reserved word
    and with a single stray quote.  Texts that happen to read as another
    statement (a name with a space in it, a doubled quote in the path) are
    outside what is modelled. *)
Definition copy_statement (table0 path : string) : option statement :=
  if unquoted_identifier table0 && quote_free path
  then Some (COPY_TO table0 path) else None.

(** [con.execute(f"COPY (SELECT * FROM {table0}) TO '{path}' (FORMAT 'parquet')")] *)
Definition execute_copy (table0 path : string) : cell answer :=
  match copy_statement table0 path with
  | Some s => execute s
  | None => raise ParserException
  end.

(** ** The notebook cells *)

(** [cursor.fetchall()] after [SHOW TABLES], each tuple read at index 0. *)
Definition fetchall_names (a : answer) : list string :=
  match a with
  | Names l => l
  | _ => []
  end.

(** "build database": [con.sql(tbl_schema)] runs the statements of the text
    one after the other and stops at the first that raises. *)
Definition build_database : cell unit :=
  for_each tbl_schema (fun d => _ ← execute (CREATE_TABLE d); mret tt).

(** "check build", first cell: the table names that are printed. *)
Definition check_build : cell (list string) :=
  a ← execute SHOW_TABLES; mret (fetchall_names a).

(** "check build", second cell. *)
Definition describe_response : cell answer :=
  execute (DESCRIBE "tbl_response").

(** "add starter data from CSV files"; the two DataFrames are what
    [pd.read_csv] returned. *)
Definition add_starter_data (df_source df_reviewer : dataframe) : cell unit :=
  _ ← execute (INSERT_SELECT "tbl_source" df_source);
  _ ← execute (INSERT_SELECT "tbl_reviewer" df_reviewer);
  mret tt.

(** "view data" *)
Definition view_data : cell answer :=
  execute (SELECT_ALL "tbl_source").

(** "dump database contents to file" *)
Definition dump_database (data_directory : string) : cell unit :=
  a ← execute SHOW_TABLES;
  for_each (fetchall_names a)
    (fun table0 =>
       _ ← execute_copy table0 (dumped_db_file data_directory table0);
       mret tt).

(** The code cells of the notebook, in the order they appear. *)
Inductive notebook_cell : Type :=
| BuildCell
| CheckBuildCell
| DescribeCell
| AddStarterDataCell (df_source df_reviewer : dataframe)
| ViewDataCell
| DumpCell (data_directory : string).

Definition run_cell (c : notebook_cell) (w : world) : world :=
  match c with
  | BuildCell => after build_database w
  | CheckBuildCell => after check_build w
  | DescribeCell => after describe_response w
  | AddStarterDataCell df_source df_reviewer =>
      after (add_starter_data df_source df_reviewer) w
  | ViewDataCell => after view_data w
  | DumpCell data_directory => after (dump_database data_directory) w
  end.

(** Cells run one after the other, in any order and any number of times. *)
Definition run_notebook (cs : list notebook_cell) (w : world) : world :=
  fold_left (fun w' c => run_cell c w') cs w.

Definition is_dump (c : notebook_cell) : bool :=
  match c with
  | DumpCell _ => true
  | _ => false
  end.

Definition is_build (c : notebook_cell) : bool :=
  match c with
  | BuildCell => true
  | _ => false
  end.

(** What the dump loop writes for the table names [names], in order, up to
    the first name at which it raises. *)
Fixpoint dump_writes (data_directory : string) (cat : list table)
    (names : list string) : list (string * parquet) :=
  match names with
  | [] => []
  | n :: names' =>
      match copy_statement n (dumped_db_file data_directory n) with
      | Some (COPY_TO t p) =>
          match find_table t cat with
          | Some tb => (p, snapshot tb) :: dump_writes data_directory cat names'
          | None => []
          end
      | _ => []
      end
  end.

(** The files after a list of writes. *)
Definition write_all (ws : list (string * parquet)) (fs : gmap string parquet)
  : gmap string parquet :=
  fold_left (fun fs' pf => <[fst pf := snd pf]> fs') ws fs.

(** ** The queries of the application *)

Section Application.

(** The two settings the README names; their values are set in the
    application. *)
Variable MAX_REVIEWS_PER_DOCUMENT : nat.
Variable MAX_REVIEWS_PER_REVIEWER : nat.

(** Modelled from the spec: the application source (app.py) is missing;
    this is its query "count responses by document". *)
Definition responses_by_document (w : world) (d : Z) : nat :=
  length (filter (fun r => field tbl_response "document_id" r = VInt d)
                 (table_rows w "tbl_response")).

(** Modelled from the spec: the application source (app.py) is missing;
    this is its query "count responses by reviewer". *)
Definition responses_by_reviewer (w : world) (rv : Z) : nat :=
  length (filter (fun r => field tbl_response "reviewer_id" r = VInt rv)
                 (table_rows w "tbl_response")).

(** Modelled from the spec: the application source (app.py) is missing;
    the rows of the log that mark a conflict of reviewer [rv] with
    document [d] ("check conflict log"). *)
Definition conflict_rows (w : world) (rv d : Z) : list row :=
  filter (fun r => field tbl_log "reviewer_id" r = VInt rv
                   ∧ field tbl_log "document_id" r = VInt d)
         (table_rows w "tbl_log").

(** Modelled from the spec: the application source (app.py) is missing;
    the responses reviewer [rv] has given for document [d]. *)
Definition own_responses (w : world) (rv d : Z) : list row :=
  filter (fun r => field tbl_response "reviewer_id" r = VInt rv
                   ∧ field tbl_response "document_id" r = VInt d)
         (table_rows w "tbl_response").

(** Modelled from the spec: the application source (app.py) is missing;
    a document can go to a reviewer when it is below the per-document cap,
    the reviewer has logged no conflict for it and has not reviewed it. *)
Definition eligible (w : world) (rv d : Z) : Prop :=
  (responses_by_document w d < MAX_REVIEWS_PER_DOCUMENT)%nat
  ∧ conflict_rows w rv d = []
  ∧ own_responses w rv d = [].

#[local] Instance eligible_dec w rv d : Decision (eligible w rv d).
Proof. unfold eligible. apply _. Defined.

(** Modelled from the spec: the application source (app.py) is missing;
    the document ids of the submissions, in table order. *)
Definition document_ids (w : world) : list Z :=
  omap (fun r => match field tbl_source "document_id" r with
                 | VInt d => Some d
                 | _ => None
                 end)
       (table_rows w "tbl_source").

(** Modelled from the spec: the application source (app.py) is missing;
    this is "fetch next unreviewed document for a reviewer": nothing once
    the reviewer is at the per-reviewer cap, else the first eligible
    submission. *)
Definition next_document (w : world) (rv : Z) : option Z :=
  if decide (responses_by_reviewer w rv < MAX_REVIEWS_PER_REVIEWER)%nat
  then head (filter (eligible w rv) (document_ids w))
  else None.

(** Modelled from the spec: the application source (app.py) is missing;
    this is its query "insert response", with the document as one of its
    parameters.  It is a plain [INSERT]: the spec names no check that runs
    with it. *)
Definition submit_response (rv : Z) (reviewer_name : string) (d : Z)
    (alignment science benefits : Z) (comments : string)
    (screening_order : Z) : cell unit :=
  _ ← execute (INSERT_VALUES "tbl_response"
                 [PyInt rv; PyStr reviewer_name; PyInt d;
                  PyInt alignment; PyInt science; PyInt benefits;
                  PyStr comments; PyInt screening_order]);
  mret tt.

(** Modelled from the spec: the application source (app.py) is missing;
    the insert that logs a conflict of a reviewer with a document, again a
    plain [INSERT]. *)
Definition declare_conflict (rv d : Z) (conflict : string) : cell unit :=
  _ ← execute (INSERT_VALUES "tbl_log" [PyInt rv; PyInt d; PyStr conflict]);
  mret tt.

(** Modelled from the spec: the application source (app.py) is missing;
    its operations (the last three) stand here next to the cells of the
    setup notebook. *)
Inductive operation : Type :=
| BuildDatabase
| CheckBuild
| DescribeResponse
| AddStarterData (df_source df_reviewer : dataframe)
| ViewData
| DumpDatabase (data_directory : string)
| NextDocument (rv : Z)
| SubmitResponse (rv : Z) (reviewer_name : string) (d : Z)
    (alignment science benefits : Z) (comments : string)
    (screening_order : Z)
| DeclareConflict (rv d : Z) (conflict : string).

Definition perform (o : operation) (w : world) : world :=
  match o with
  | BuildDatabase => after build_database w
  | CheckBuild => after check_build w
  | DescribeResponse => after describe_response w
  | AddStarterData df_source df_reviewer =>
      after (add_starter_data df_source df_reviewer) w
  | ViewData => after view_data w
  | DumpDatabase data_directory => after (dump_database data_directory) w
  | NextDocument _ => w
  | SubmitResponse rv n d a s b c o =>
      after (submit_response rv n d a s b c o) w
  | DeclareConflict rv d c => after (declare_conflict rv d c) w
  end.

Definition run (ops : list operation) (w : world) : world :=
  fold_left (fun w' o => perform o w') ops w.

Fixpoint remove_one (x : Z * Z) (l : list (Z * Z)) : list (Z * Z) :=
  match l with
  | [] => []
  | y :: l' => if bool_decide (y = x) then l' else y :: remove_one x l'
  end.

(** Modelled from the spec: the application source (app.py) is missing;
    a reviewer responds to, or declares a conflict with, a document that
    the queue has presented to them before.  [shown] holds the
    presentations not yet answered, one for each fetch: several reviewers,
    and several sessions of one reviewer under the shared credential, hold
    theirs at the same time. *)
Fixpoint follows_queue (shown : list (Z * Z)) (ops : list operation)
    (w : world) : bool :=
  match ops with
  | [] => true
  | o :: ops' =>
      match o with
      | NextDocument rv =>
          follows_queue
            (match next_document w rv with
             | Some d => (rv, d) :: shown
             | None => shown
             end) ops' (perform o w)
      | SubmitResponse rv _ d _ _ _ _ _ | DeclareConflict rv d _ =>
          bool_decide ((rv, d) ∈ shown)
          && follows_queue (remove_one (rv, d) shown) ops' (perform o w)
      | _ => follows_queue shown ops' (perform o w)
      end
  end.

(** The states the database goes through, from the empty file on, as
    cells and application operations run one after the other. *)
Definition reachable (w : world) : Prop :=
  exists ops, follows_queue [] ops empty_world = true /\ w = run ops empty_world.

(** The two caps, as a property of a state. *)
Definition within_caps (w : world) : Prop :=
  (forall d, (responses_by_document w d <= MAX_REVIEWS_PER_DOCUMENT)%nat)
  /\ (forall rv, (responses_by_reviewer w rv <= MAX_REVIEWS_PER_REVIEWER)%nat).

(** An insert of the application that is issued in the state in which the
    queue presents its document to its reviewer. *)
Definition in_step_with_queue (w : world) (o : operation) : bool :=
  match o with
  | SubmitResponse rv _ d _ _ _ _ _ | DeclareConflict rv d _ =>
      bool_decide (next_document w rv = Some d)
  | _ => true
  end.

(** A run in which every insert of the application is in step with the
    queue: no other operation comes between the fetch and the insert it
    leads to. *)
Fixpoint runs_in_step (ops : list operation) (w : world) : bool :=
  match ops with
  | [] => true
  | o :: ops' => in_step_with_queue w o && runs_in_step ops' (perform o w)
  end.

End Application.

(** ** Examples *)

Definition df_reviewer_example : dataframe :=
  {| df_columns := ["reviewer_id"; "reviewer_name"];
     df_rows := [[PyInt 1; PyStr "Ada"]; [PyInt 2; PyStr "Grace"]] |}.

Definition df_source_example : dataframe :=
  {| df_columns := map fst (tbl_columns tbl_source);
     df_rows :=
       [[PyInt 10; PyStr "2024-01-15 09:30:00"; PyStr "a@x.org"; PyStr "A";
         PyStr "One"; PyInt 5551234; PyStr "Inst"; PyStr "A One"; PyStr "T1";
         PyStr "Abs"; PyStr "Bio"; PyStr "Plan"; PyStr "Yes"; PyStr "No";
         PyStr "No"; PyStr "No"; PyStr "Yes"; PyStr "B1"];
        [PyInt 11; PyStr "2024-02-29"; PyStr "b@x.org"; PyStr "B";
         PyStr "Two"; PyNone; PyStr "Inst"; PyStr "B Two"; PyStr "T2";
         PyStr "Abs"; PyStr "Bio"; PyStr "Plan"; PyStr "No"; PyStr "Yes";
         PyStr "No"; PyStr "No"; PyStr "No"; PyStr "B2"]] |}.

(** The reviewers file with its two columns exchanged. *)
Definition df_reviewer_reordered : dataframe :=
  {| df_columns := ["reviewer_name"; "reviewer_id"];
     df_rows := [[PyStr "Ada"; PyInt 1]; [PyStr "Grace"; PyInt 2]] |}.

(** A reviewers file with a row that does not convert. *)
Definition df_reviewer_bad : dataframe :=
  {| df_columns := ["reviewer_id"; "reviewer_name"];
     df_rows := [[PyInt 3; PyStr "Edsger"]; [PyStr "four"; PyStr "Barbara"]] |}.

(** Files with a header line and no rows. *)
Definition df_source_empty : dataframe :=
  {| df_columns := map fst (tbl_columns tbl_source); df_rows := [] |}.

Definition df_reviewer_empty : dataframe :=
  {| df_columns := ["reviewer_id"; "reviewer_name"]; df_rows := [] |}.

Definition fresh_world : world := after build_database empty_world.

Definition loaded_world : world :=
  after (add_starter_data df_source_example df_reviewer_example) fresh_world.

(** A review in progress: the database is built and loaded, reviewer 1 has
    reviewed the first document and reviewer 2 has declared a conflict with
    it. *)
Definition review_ops : list operation :=
  [ BuildDatabase;
    AddStarterData df_source_example df_reviewer_example;
    NextDocument 1;
    SubmitResponse 1 "Ada" 10 3 4 5 "sound" 1;
    NextDocument 2;
    DeclareConflict 2 10 "co-author" ].

Definition reviewed_world : world := run review_ops empty_world.

(** Two reviewers are presented the first document before either responds,
    and both respond. *)
Definition crossing_ops : list operation :=
  [ BuildDatabase;
    AddStarterData df_source_example df_reviewer_example;
    NextDocument 1;
    NextDocument 2;
    SubmitResponse 1 "Ada" 10 3 4 5 "sound" 1;
    SubmitResponse 2 "Grace" 10 4 4 4 "fine" 1 ].

(** One reviewer is presented the first document in two sessions and
    declares the conflict in both. *)
Definition two_sessions_ops : list operation :=
  [ BuildDatabase;
    AddStarterData df_source_example df_reviewer_example;
    NextDocument 2;
    NextDocument 2;
    DeclareConflict 2 10 "co-author";
    DeclareConflict 2 10 "co-author" ].

Definition response_example : row :=
  [VInt 1; VStr "Ada"; VInt 10; VInt 3; VInt 4; VInt 5; VStr "sound"; VInt 1].

Definition response_again : list pyval :=
  [PyInt 1; PyStr "Ada"; PyInt 10; PyInt 2; PyInt 2; PyInt 2; PyStr "again";
   PyInt 2].

Definition log_example : row := [VInt 2; VInt 10; VStr "co-author"].

Definition statements_example : list statement :=
  map CREATE_TABLE tbl_schema
  ++ [INSERT_VALUES "tbl_response"
        [PyInt 1; PyStr "Ada"; PyInt 10; PyInt 3; PyInt 4; PyInt 5;
         PyStr "sound"; PyInt 1]].

(** A database that holds the responses table and nothing else. *)
Definition half_built_world : world :=
  {| db := [{| tdef := tbl_response; trows := [response_example] |}];
     files := ∅ |}.

(** A database that holds a table named like [tbl_log] in capitals. *)
Definition capitals_world : world :=
  {| db := [{| tdef := {| tbl_name := "TBL_LOG";
                          tbl_columns := [("reviewer_id", INTEGER)];
                          tbl_constraints := [] |};
               trows := [] |}];
     files := ∅ |}.

(** A database with a table whose name is a reserved word between two
    others. *)
Definition reserved_world : world :=
  {| db := [ {| tdef := {| tbl_name := "order";
                           tbl_columns := [("x", INTEGER)];
                           tbl_constraints := [] |};
                trows := [] |};
             {| tdef := {| tbl_name := "a";
                           tbl_columns := [("x", INTEGER)];
                           tbl_constraints := [] |};
                trows := [[VInt 1]] |};
             {| tdef := {| tbl_name := "z";
                           tbl_columns := [("x", INTEGER)];
                           tbl_constraints := [] |};
                trows := [] |} ];
     files := ∅ |}.

(** A world whose tables were created out of alphabetical order. *)
Definition unsorted_world : world :=
  {| db := [empty_table tbl_source; empty_table tbl_log;
            {| tdef := tbl_reviewer; trows := [[VInt 1; VStr "Ada"]] |}];
     files := ∅ |}.

(** A session at the notebook: build, load, look, dump, load again. *)
Definition notebook_example : list notebook_cell :=
  [ BuildCell; CheckBuildCell; DescribeCell;
    AddStarterDataCell df_source_example df_reviewer_example;
    ViewDataCell; DumpCell "/srv/workshop/data";
    AddStarterDataCell df_source_example df_reviewer_bad ].

(** The reviewers table as the example session leaves it. *)
Definition reviewer_table_example : table :=
  {| tdef := tbl_reviewer;
     trows := [[VInt 1; VStr "Ada"]; [VInt 2; VStr "Grace"]] |}.

End Model.

(** ** An engine for the examples *)

(** Decimal text of an integer, and back: an optional minus sign followed by
    digits. *)
Definition string_of_Z (z : Z) : string := NilZero.string_of_int (Z.to_int z).

Definition parse_integer (s : string) : option Z :=
  Z.of_int <$> NilZero.int_of_string s.

Definition parse_nat (s : string) : option nat :=
  Nat.of_uint <$> NilZero.uint_of_string s.

Definition is_leap_year (y : nat) : bool :=
  ((y mod 4 =? 0) && negb (y mod 100 =? 0) || (y mod 400 =? 0))%nat.

Definition days_in_month (y m : nat) : nat :=
  match m with
  | 2 => if is_leap_year y then 29 else 28
  | 4 | 6 | 9 | 11 => 30
  | _ => 31
  end%nat.

Definition char_at (i : nat) (s : string) (c : ascii) : bool :=
  bool_decide (String.get i s = Some c).

(** Text of the form [YYYY-MM-DD] or [YYYY-MM-DD hh:mm:ss]. *)
Definition parse_timestamp (s : string) : option timestamp :=
  let n := String.length s in
  if negb (bool_decide (n = 10%nat) || bool_decide (n = 19%nat)) then None else
  if negb (char_at 4 s "-" && char_at 7 s "-") then None else
  y ← parse_nat (substring 0 4 s);
  m ← parse_nat (substring 5 2 s);
  d ← parse_nat (substring 8 2 s);
  '(hh, mm, ss) ←
    (if bool_decide (n = 10%nat) then Some (0, 0, 0)%nat
     else if negb (char_at 10 s " " && char_at 13 s ":" && char_at 16 s ":") then None
     else hh ← parse_nat (substring 11 2 s);
          mm ← parse_nat (substring 14 2 s);
          ss ← parse_nat (substring 17 2 s);
          Some (hh, mm, ss));
  if ((1 <=? m) && (m <=? 12) && (1 <=? d) && (d <=? days_in_month y m)
      && (hh <? 24) && (mm <? 60) && (ss <? 60))%nat
  then Some (Timestamp y m d hh mm ss) else None.

(** The conversion of the example engine.  It reads integers and dates in
    the plainest notation only and converts neither floats nor booleans;
    the real engine reads more.  It serves to run the examples, on inputs
    where the two agree. *)
Definition example_cast (ty : sqltype) (v : pyval) : option value :=
  match v, ty with
  | PyNone, _ => Some NULL
  | PyInt z, INTEGER => if in_int32 z then Some (VInt z) else None
  | PyInt z, VARCHAR => Some (VStr (string_of_Z z))
  | PyInt _, TIMESTAMP => None
  | PyStr s, INTEGER =>
      if has_digit s
      then z ← parse_integer s; if in_int32 z then Some (VInt z) else None
      else None
  | PyStr s, VARCHAR => Some (VStr s)
  | PyStr s, TIMESTAMP => VTime <$> parse_timestamp s
  | PyFloat _, _ => None
  | PyBool _, _ => None
  end.

(** Some of the reserved words of SQL. *)
Definition example_reserved (s : string) : bool :=
  bool_decide (s ∈ ["all"; "and"; "as"; "create"; "from"; "group"; "in";
                    "into"; "not"; "null"; "on"; "or"; "order"; "select";
                    "table"; "to"; "union"; "where"; "with"]).

Definition example_engine : Engine.
Proof.
  refine {| cast := example_cast; reserved_word := example_reserved |}.
  - intros ty. reflexivity.
  - intros ty [|z|x|b|s] v'; destruct ty; simpl; try discriminate;
      try (intros [= <-]; exact I).
    + destruct (in_int32 z) eqn:E; [|discriminate]. intros [= <-]. exact E.
    + destruct (has_digit s); [|discriminate].
      destruct (parse_integer s) as [z|]; simpl; [|discriminate].
      destruct (in_int32 z) eqn:E; [|discriminate]. intros [= <-]. exact E.
    + destruct (parse_timestamp s); simpl; [|discriminate]. intros [= <-]. exact I.
  - intros z. reflexivity.
  - intros s. reflexivity.
  - intros s Hs. simpl. rewrite Hs. reflexivity.
  - intros d Hd. unfold tbl_schema in Hd.
    repeat (apply elem_of_cons in Hd as [->|Hd]); [reflexivity..|inversion Hd].
Defined.

(** * Properties *)

Section Properties.

Context {engine : Engine}.

(** ** The monad *)

Lemma after_bind {A B} (m : cell A) (k : A -> cell B) (w : world) :
  after (m ≫= k) w =
  match m w with
  | (inr a, w') => after (k a) w'
  | (inl _, w') => w'
  end.
Proof.
  unfold after, mbind, cell_bind, bind. destruct (m w) as [[e|a] w']; reflexivity.
Qed.

Lemma bind_returns {A B} (m : cell A) (k : A -> cell B) w a w1 :
  m w = (inr a, w1) -> (m ≫= k) w = k a w1.
Proof. intros H. unfold mbind, cell_bind, bind. rewrite H. reflexivity. Qed.

Lemma bind_raises {A B} (m : cell A) (k : A -> cell B) w e w1 :
  m w = (inl e, w1) -> (m ≫= k) w = (inl e, w1).
Proof. intros H. unfold mbind, cell_bind, bind. rewrite H. reflexivity. Qed.

Lemma for_each_cons_returns {A} (x : A) xs (body : A -> cell unit) w w1 :
  body x w = (inr tt, w1) ->
  for_each (x :: xs) body w = for_each xs body w1.
Proof.
  intros H. simpl. rewrite (bind_returns _ (fun _ => for_each xs body) _ _ _ H).
  reflexivity.
Qed.

Lemma for_each_cons_raises {A} (x : A) xs (body : A -> cell unit) w e w1 :
  body x w = (inl e, w1) ->
  for_each (x :: xs) body w = (inl e, w1).
Proof.
  intros H. simpl. unfold mbind, cell_bind, bind. rewrite H. reflexivity.
Qed.

Lemma for_each_app_returns {A} (xs ys : list A) (body : A -> cell unit) w w1 :
  for_each xs body w = (inr tt, w1) ->
  for_each (xs ++ ys) body w = for_each ys body w1.
Proof.
  revert w. induction xs as [|x xs IH]; intros w; simpl.
  - intros [= <-]. reflexivity.
  - unfold mbind, cell_bind, bind.
    destruct (body x w) as [[e|[]] w2]; [discriminate|]. apply IH.
Qed.

Section Relations.

Variable R : world -> world -> Prop.
Hypothesis R_refl : forall w, R w w.
Hypothesis R_trans : forall w1 w2 w3, R w1 w2 -> R w2 w3 -> R w1 w3.

Lemma bind_related {A B} (m : cell A) (k : A -> cell B) :
  (forall w, R w (after m w)) ->
  (forall a w, R w (after (k a) w)) ->
  forall w, R w (after (m ≫= k) w).
Proof.
  intros Hm Hk w. rewrite after_bind.
  specialize (Hm w). unfold after in Hm.
  destruct (m w) as [[e|a] w']; simpl in Hm; [assumption|].
  eapply R_trans; [exact Hm | apply Hk].
Qed.

Lemma ret_related {A} (a : A) : forall w, R w (after (mret a : cell A) w).
Proof. intros w. apply R_refl. Qed.

Lemma for_each_related {A} (xs : list A) (body : A -> cell unit) :
  (forall x w, R w (after (body x) w)) ->
  forall w, R w (after (for_each xs body) w).
Proof.
  intros Hbody. induction xs as [|x xs IH]; simpl.
  - apply R_refl.
  - apply bind_related; [apply Hbody | intros _; exact IH].
Qed.

Lemma fold_related {A} (f : A -> world -> world) (xs : list A) :
  (forall x w, R w (f x w)) ->
  forall w, R w (fold_left (fun w' x => f x w') xs w).
Proof.
  intros Hf. induction xs as [|x xs IH]; intros w; simpl.
  - apply R_refl.
  - eapply R_trans; [apply Hf | apply IH].
Qed.

End Relations.

Section Invariants.

Variable P : world -> Prop.

Lemma bind_invariant {A B} (m : cell A) (k : A -> cell B) :
  (forall w, P w -> P (after m w)) ->
  (forall a w, P w -> P (after (k a) w)) ->
  forall w, P w -> P (after (m ≫= k) w).
Proof.
  intros Hm Hk w Hw. rewrite after_bind.
  specialize (Hm w Hw). unfold after in Hm.
  destruct (m w) as [[e|a] w']; simpl in Hm; [exact Hm | apply Hk, Hm].
Qed.

Lemma for_each_invariant {A} (xs : list A) (body : A -> cell unit) :
  (forall x w, P w -> P (after (body x) w)) ->
  forall w, P w -> P (after (for_each xs body) w).
Proof.
  intros Hbody. induction xs as [|x xs IH]; simpl.
  - intros w Hw. exact Hw.
  - apply bind_invariant; [apply Hbody | intros _; exact IH].
Qed.

Lemma fold_invariant {A} (f : A -> world -> world) (xs : list A) :
  (forall x w, P w -> P (f x w)) ->
  forall w, P w -> P (fold_left (fun w' x => f x w') xs w).
Proof.
  intros Hf. induction xs as [|x xs IH]; intros w Hw; simpl; [exact Hw|].
  apply IH, Hf, Hw.
Qed.

End Invariants.

Lemma extends_refl w : extends w w.
Proof. intros name. exists []. symmetry. apply app_nil_r. Qed.

Lemma extends_trans w1 w2 w3 : extends w1 w2 -> extends w2 w3 -> extends w1 w3.
Proof.
  intros H12 H23 name.
  destruct (H12 name) as [a1 E1]. destruct (H23 name) as [a2 E2].
  exists (a1 ++ a2). rewrite E2, E1. symmetry. apply app_assoc.
Qed.

Lemma same_rows_refl w : same_rows w w.
Proof. intros name. reflexivity. Qed.

Lemma same_rows_trans w1 w2 w3 :
  same_rows w1 w2 -> same_rows w2 w3 -> same_rows w1 w3.
Proof. intros H12 H23 name. rewrite H23. apply H12. Qed.

Lemma same_rows_extends w w' : same_rows w w' -> extends w w'.
Proof. intros H name. exists []. rewrite H. symmetry. apply app_nil_r. Qed.

Lemma same_db_refl w : same_db w w.
Proof. reflexivity. Qed.

Lemma same_db_trans w1 w2 w3 : same_db w1 w2 -> same_db w2 w3 -> same_db w1 w3.
Proof. unfold same_db. congruence. Qed.

Lemma keeps_refl name w : keeps name w w.
Proof. reflexivity. Qed.

Lemma keeps_trans name w1 w2 w3 :
  keeps name w1 w2 -> keeps name w2 w3 -> keeps name w1 w3.
Proof. unfold keeps. congruence. Qed.

Lemma same_defs_refl w : same_defs w w.
Proof. reflexivity. Qed.

Lemma same_defs_trans w1 w2 w3 :
  same_defs w1 w2 -> same_defs w2 w3 -> same_defs w1 w3.
Proof. unfold same_defs. congruence. Qed.

(** ** The catalog *)

Lemma same_name_sym a b : same_name a b -> same_name b a.
Proof. unfold same_name. congruence. Qed.

Lemma same_name_trans a b c : same_name a b -> same_name b c -> same_name a c.
Proof. unfold same_name. congruence. Qed.

Lemma same_name_test n a b :
  same_name a b ->
  bool_decide (same_name n a) = bool_decide (same_name n b).
Proof.
  intros H. apply bool_decide_ext. unfold same_name in *.
  split; congruence.
Qed.

(** Lookup does not see the case of the name it is given. *)
Lemma find_table_same a b cat :
  same_name a b -> find_table a cat = find_table b cat.
Proof.
  intros H. unfold find_table. induction cat as [|t cat IH]; simpl; [reflexivity|].
  rewrite (same_name_test _ a b H), IH. reflexivity.
Qed.

Lemma table_rows_same a b w :
  same_name a b -> table_rows w a = table_rows w b.
Proof. intros H. unfold table_rows. rewrite (find_table_same a b _ H). reflexivity. Qed.

Lemma find_table_name name cat t :
  find_table name cat = Some t -> same_name (tbl_name (tdef t)) name /\ In t cat.
Proof.
  unfold find_table. intros H. apply find_some in H as [Hin Hb].
  apply bool_decide_eq_true in Hb. auto.
Qed.

Lemma find_table_app_None name cat t :
  find_table name cat = None ->
  find_table name (cat ++ [t]) =
  if bool_decide (same_name (tbl_name (tdef t)) name) then Some t else None.
Proof.
  unfold find_table. induction cat as [|t0 cat IH]; simpl; [reflexivity|].
  destruct (bool_decide (same_name (tbl_name (tdef t0)) name));
    [discriminate | exact IH].
Qed.

Lemma find_table_app_Some name cat t t0 :
  find_table name cat = Some t0 -> find_table name (cat ++ [t]) = Some t0.
Proof.
  unfold find_table. induction cat as [|t1 cat IH]; simpl; [discriminate|].
  destruct (bool_decide (same_name (tbl_name (tdef t1)) name));
    [trivial | exact IH].
Qed.

Lemma find_table_set_rows_eq name rs cat t :
  find_table name cat = Some t ->
  find_table name (set_rows name rs cat) = Some {| tdef := tdef t; trows := rs |}.
Proof.
  unfold find_table. induction cat as [|t0 cat IH]; simpl; [discriminate|].
  destruct (bool_decide (same_name (tbl_name (tdef t0)) name)) eqn:E; simpl.
  - rewrite E. intros [= ->]. reflexivity.
  - rewrite E. exact IH.
Qed.

Lemma find_table_set_rows_ne name name' rs cat :
  ~ same_name name name' ->
  find_table name' (set_rows name rs cat) = find_table name' cat.
Proof.
  intros Hne. unfold find_table.
  induction cat as [|t0 cat IH]; simpl; [reflexivity|].
  destruct (bool_decide (same_name (tbl_name (tdef t0)) name)) eqn:E; simpl.
  - apply bool_decide_eq_true in E.
    rewrite (bool_decide_eq_false_2 (same_name (tbl_name (tdef t0)) name')).
    + reflexivity.
    + intros E'. apply Hne.
      eapply same_name_trans; [apply same_name_sym, E | exact E'].
  - rewrite IH. reflexivity.
Qed.

Lemma map_tdef_set_rows name rs cat :
  map tdef (set_rows name rs cat) = map tdef cat.
Proof.
  induction cat as [|t0 cat IH]; simpl; [reflexivity|].
  destruct (bool_decide _); simpl; [reflexivity|]. rewrite IH. reflexivity.
Qed.

Lemma set_rows_same name cat t :
  find_table name cat = Some t -> set_rows name (trows t) cat = cat.
Proof.
  unfold find_table. induction cat as [|t0 cat IH]; simpl; [reflexivity|].
  destruct (bool_decide (same_name (tbl_name (tdef t0)) name)).
  - intros [= ->]. destruct t; reflexivity.
  - intros H. rewrite IH by exact H. reflexivity.
Qed.

Lemma table_rows_set_rows_eq w target t rs :
  find_table target (db w) = Some t ->
  table_rows {| db := set_rows target rs (db w); files := files w |} target = rs.
Proof.
  intros Ht. unfold table_rows. simpl.
  rewrite (find_table_set_rows_eq _ _ _ _ Ht). reflexivity.
Qed.

Lemma table_rows_set_rows_ne w target rs name :
  ~ same_name target name ->
  table_rows {| db := set_rows target rs (db w); files := files w |} name
  = table_rows w name.
Proof.
  intros Hne. unfold table_rows. simpl.
  rewrite find_table_set_rows_ne by exact Hne. reflexivity.
Qed.

Lemma built_set_rows w name rs :
  built w -> built {| db := set_rows name rs (db w); files := files w |}.
Proof. unfold built. simpl. rewrite map_tdef_set_rows. trivial. Qed.

Lemma built_tables w :
  built w ->
  exists r1 r2 r3 r4,
    db w = [ {| tdef := tbl_log; trows := r1 |};
             {| tdef := tbl_response; trows := r2 |};
             {| tdef := tbl_reviewer; trows := r3 |};
             {| tdef := tbl_source; trows := r4 |} ].
Proof.
  unfold built, tbl_schema. intros H.
  destruct (db w) as [|[d1 r1] [|[d2 r2] [|[d3 r3] [|[d4 r4] [|? ?]]]]];
    simpl in H; try discriminate.
  injection H as -> -> -> ->. exists r1, r2, r3, r4. reflexivity.
Qed.

Lemma built_find w d :
  built w -> d ∈ tbl_schema ->
  exists rs, find_table (tbl_name d) (db w) = Some {| tdef := d; trows := rs |}.
Proof.
  intros Hb Hd. destruct (built_tables w Hb) as (r1 & r2 & r3 & r4 & ->).
  unfold tbl_schema in Hd.
  repeat (apply elem_of_cons in Hd as [->|Hd]);
    [exists r1 | exists r2 | exists r3 | exists r4 | inversion Hd]; reflexivity.
Qed.

Lemma built_has_table w d :
  built w -> d ∈ tbl_schema -> is_Some (find_table (tbl_name d) (db w)).
Proof. intros Hb Hd. destruct (built_find w d Hb Hd) as [rs H]. eauto. Qed.

Lemma log_in_schema : tbl_log ∈ tbl_schema.
Proof. unfold tbl_schema. rewrite !elem_of_cons. auto. Qed.

Lemma response_in_schema : tbl_response ∈ tbl_schema.
Proof. unfold tbl_schema. rewrite !elem_of_cons. auto. Qed.

Lemma reviewer_in_schema : tbl_reviewer ∈ tbl_schema.
Proof. unfold tbl_schema. rewrite !elem_of_cons. auto. Qed.

Lemma source_in_schema : tbl_source ∈ tbl_schema.
Proof. unfold tbl_schema. rewrite !elem_of_cons. auto. Qed.

Lemma schema_unconstrained d : d ∈ tbl_schema -> tbl_constraints d = [].
Proof.
  unfold tbl_schema. intros Hd.
  repeat (apply elem_of_cons in Hd as [->|Hd]); [reflexivity..|inversion Hd].
Qed.

(** ** Inserting *)

Lemma append_rows_Some cat t rs t' :
  append_rows cat t rs = Some t' ->
  t' = {| tdef := tdef t; trows := trows t ++ rs |}.
Proof.
  revert t. induction rs as [|r rs IH]; intros t; simpl.
  - intros [= <-]. rewrite app_nil_r. destruct t; reflexivity.
  - destruct (accepts cat t r); [|discriminate].
    intros H. apply IH in H. subst t'. simpl.
    rewrite <- app_assoc. reflexivity.
Qed.

Lemma append_rows_unconstrained cat t rs :
  tbl_constraints (tdef t) = [] ->
  append_rows cat t rs = Some {| tdef := tdef t; trows := trows t ++ rs |}.
Proof.
  revert t. induction rs as [|r rs IH]; intros t Hc; simpl.
  - rewrite app_nil_r. destruct t; reflexivity.
  - unfold accepts. rewrite Hc. simpl.
    rewrite IH by exact Hc. simpl. rewrite <- app_assoc. reflexivity.
Qed.

Lemma insert_into_outcome target width rs w :
  insert_outcome target width rs w (insert_into target width rs w).
Proof.
  unfold insert_into.
  destruct (find_table target (db w)) as [t|] eqn:Ht; [|constructor].
  destruct (bool_decide (width = length (tbl_columns (tdef t)))) eqn:Hw;
    simpl; [|constructor].
  apply bool_decide_eq_true in Hw.
  destruct (cast_rows (tbl_columns (tdef t)) rs) as [rs'|] eqn:Hc; [|constructor].
  destruct (append_rows (db w) t rs') as [t'|] eqn:Ha; [|constructor].
  apply append_rows_Some in Ha. subst t'. simpl.
  econstructor; eassumption.
Qed.

Lemma insert_into_unconstrained target width rs w t rs' :
  find_table target (db w) = Some t ->
  tbl_constraints (tdef t) = [] ->
  width = length (tbl_columns (tdef t)) ->
  cast_rows (tbl_columns (tdef t)) rs = Some rs' ->
  insert_into target width rs w =
  (inr NoResult,
   {| db := set_rows target (trows t ++ rs') (db w); files := files w |}).
Proof.
  intros Ht Hc Hw Hr. unfold insert_into. rewrite Ht.
  rewrite bool_decide_eq_true_2 by exact Hw. simpl.
  rewrite Hr, append_rows_unconstrained by exact Hc. reflexivity.
Qed.

Lemma insert_into_extends target width rs w :
  extends w (after (insert_into target width rs) w).
Proof.
  unfold after. destruct (insert_into_outcome target width rs w) as [e|t rs' Ht Hw Hc];
    simpl; [apply extends_refl|].
  intros name. destruct (decide (same_name target name)) as [Hsame|Hne].
  - exists rs'. rewrite <- !(table_rows_same target name) by exact Hsame.
    rewrite (table_rows_set_rows_eq _ _ _ _ Ht).
    unfold table_rows. rewrite Ht. reflexivity.
  - exists []. rewrite table_rows_set_rows_ne by exact Hne.
    symmetry. apply app_nil_r.
Qed.

(** An [INSERT] leaves the other tables alone. *)
Lemma insert_into_other target width rs w name :
  ~ same_name target name ->
  table_rows (after (insert_into target width rs) w) name = table_rows w name.
Proof.
  intros Hne. unfold after.
  destruct (insert_into_outcome target width rs w) as [e|t rs' Ht Hw Hc];
    simpl; [reflexivity|].
  apply table_rows_set_rows_ne. exact Hne.
Qed.

(** ** Statements *)

Lemma execute_same_rows s w :
  is_insert s = false -> same_rows w (after (execute s) w).
Proof.
  intros Hs name. destruct s; try discriminate; unfold after; simpl.
  - destruct (bool_decide (is_Some (find_table (tbl_name d) (db w)))) eqn:E;
      simpl; [reflexivity|].
    destruct (references_exist (db w) d); simpl; [|reflexivity].
    apply bool_decide_eq_false in E.
    assert (find_table (tbl_name d) (db w) = None) as Hnone.
    { destruct (find_table (tbl_name d) (db w)); [|reflexivity].
      exfalso. apply E. eauto. }
    unfold table_rows. simpl.
    destruct (find_table name (db w)) as [t0|] eqn:Hn.
    + rewrite (find_table_app_Some _ _ _ _ Hn). reflexivity.
    + rewrite find_table_app_None by exact Hn. simpl.
      destruct (bool_decide (same_name (tbl_name d) name)); reflexivity.
  - reflexivity.
  - destruct (find_table name0 (db w)); reflexivity.
  - destruct (find_table name0 (db w)); reflexivity.
  - destruct (find_table name0 (db w)); reflexivity.
Qed.

Lemma execute_extends s w : extends w (after (execute s) w).
Proof.
  destruct (is_insert s) eqn:Hs.
  - destruct s; try discriminate; simpl; apply insert_into_extends.
  - apply same_rows_extends, execute_same_rows, Hs.
Qed.

Lemma execute_keeps name s w :
  (forall target, insert_target s = Some target -> ~ same_name target name) ->
  keeps name w (after (execute s) w).
Proof.
  intros Hs. destruct (is_insert s) eqn:Hi.
  - destruct s; try discriminate; simpl in *;
      apply insert_into_other, Hs; reflexivity.
  - apply execute_same_rows, Hi.
Qed.

Lemma execute_same_defs s w :
  is_create s = false -> same_defs w (after (execute s) w).
Proof.
  assert (forall target width rs,
            same_defs w (after (insert_into target width rs) w)) as Hins.
  { intros target width rs. unfold after, same_defs.
    destruct (insert_into_outcome target width rs w); simpl; [reflexivity|].
    apply map_tdef_set_rows. }
  intros Hs. destruct s; try discriminate; unfold after; simpl;
    try apply Hins; try reflexivity;
    destruct (find_table name (db w)); reflexivity.
Qed.

Lemma copy_statement_Some table0 path s :
  copy_statement table0 path = Some s -> s = COPY_TO table0 path.
Proof.
  unfold copy_statement.
  destruct (unquoted_identifier table0 && quote_free path); [|discriminate].
  intros [= <-]. reflexivity.
Qed.

Lemma copy_to_same_db name path w : same_db w (after (execute (COPY_TO name path)) w).
Proof.
  unfold after, same_db. simpl. destruct (find_table name (db w)); reflexivity.
Qed.

Lemma execute_copy_same_db table0 path w :
  same_db w (after (execute_copy table0 path) w).
Proof.
  unfold execute_copy.
  destruct (copy_statement table0 path) as [s|] eqn:E; [|reflexivity].
  apply copy_statement_Some in E. subst s. apply copy_to_same_db.
Qed.

(** ** The rows of the notebook cells and of the application *)

Lemma step_extends (s : statement) w :
  extends w (after (_ ← execute s; mret tt : cell unit) w).
Proof.
  apply (bind_related extends extends_trans).
  - apply execute_extends.
  - intros _. apply (ret_related extends extends_refl).
Qed.

Lemma step_keeps name s w :
  (forall target, insert_target s = Some target -> ~ same_name target name) ->
  keeps name w (after (_ ← execute s; mret tt : cell unit) w).
Proof.
  intros Hs. apply (bind_related (keeps name) (keeps_trans name)).
  - intros w0. apply execute_keeps, Hs.
  - intros _ w0. apply keeps_refl.
Qed.

Lemma step_same_defs s w :
  is_create s = false ->
  same_defs w (after (_ ← execute s; mret tt : cell unit) w).
Proof.
  intros Hs. apply (bind_related same_defs same_defs_trans).
  - intros w0. apply execute_same_defs, Hs.
  - intros _ w0. apply same_defs_refl.
Qed.

Lemma build_database_extends w : extends w (after build_database w).
Proof.
  apply (for_each_related extends extends_refl extends_trans).
  intros d. apply step_extends.
Qed.

Lemma check_build_extends w : extends w (after check_build w).
Proof.
  apply (bind_related extends extends_trans).
  - apply execute_extends.
  - intros a. apply (ret_related extends extends_refl).
Qed.

Lemma add_starter_data_extends df_source df_reviewer w :
  extends w (after (add_starter_data df_source df_reviewer) w).
Proof.
  apply (bind_related extends extends_trans);
    [apply execute_extends | intros _].
  apply step_extends.
Qed.

Lemma dump_database_same_db (data_directory : string) (w : world) :
  db (after (dump_database data_directory) w) = db w.
Proof.
  change (same_db w (after (dump_database data_directory) w)).
  apply (bind_related same_db same_db_trans).
  - intros w0. reflexivity.
  - intros a. apply (for_each_related same_db same_db_refl same_db_trans).
    intros t. apply (bind_related same_db same_db_trans).
    + intros w0. apply execute_copy_same_db.
    + intros _. apply (ret_related same_db same_db_refl).
Qed.

Lemma dump_database_extends data_directory w :
  extends w (after (dump_database data_directory) w).
Proof.
  apply same_rows_extends. intros name.
  unfold table_rows. rewrite dump_database_same_db. reflexivity.
Qed.

Lemma submit_response_extends rv n d a s b c o w :
  extends w (after (submit_response rv n d a s b c o) w).
Proof. apply step_extends. Qed.

Lemma declare_conflict_extends rv d c w :
  extends w (after (declare_conflict rv d c) w).
Proof. apply step_extends. Qed.

Lemma perform_extends o w : extends w (perform o w).
Proof.
  destruct o; simpl.
  - apply build_database_extends.
  - apply check_build_extends.
  - apply execute_extends.
  - apply add_starter_data_extends.
  - apply execute_extends.
  - apply dump_database_extends.
  - apply extends_refl.
  - apply submit_response_extends.
  - apply declare_conflict_extends.
Qed.

Lemma run_extends ops w : extends w (run ops w).
Proof.
  apply (fold_related extends extends_refl extends_trans).
  apply perform_extends.
Qed.

(** C5.  No operation of the setup notebook or of the application updates or
    deletes a row: whatever operations run, every table afterwards holds
    the rows it held before, unchanged and in place, followed by the rows
    that were added. *)
Theorem rows_are_only_appended (ops : list operation) (w : world) (name : string) :
  exists added,
    table_rows (run ops w) name = table_rows w name ++ added.
Proof. apply run_extends. Qed.

(** C10.  The Parquet export leaves the database as it was: every table has
    the same definition and rows after the dump cell as before it. *)
Theorem dump_database_keeps_db (data_directory : string) (w : world) :
  db (after (dump_database data_directory) w) = db w
  /\ forall name,
       table_rows (after (dump_database data_directory) w) name
       = table_rows w name.
Proof.
  split; [apply dump_database_same_db|].
  intros name. unfold table_rows. rewrite dump_database_same_db. reflexivity.
Qed.

(** ** The dump writes one file per table *)

Lemma string_length_app (s1 s2 : string) :
  String.length (s1 +:+ s2) = (String.length s1 + String.length s2)%nat.
Proof.
  induction s1 as [|a s1 IH]; [reflexivity|].
  change (S (String.length (s1 +:+ s2)) = S (String.length s1 + String.length s2)).
  rewrite IH. reflexivity.
Qed.

Lemma string_app_assoc (s1 s2 s3 : string) :
  (s1 +:+ s2) +:+ s3 = s1 +:+ (s2 +:+ s3).
Proof.
  induction s1 as [|a s1 IH]; [reflexivity|].
  change (String a ((s1 +:+ s2) +:+ s3) = String a (s1 +:+ (s2 +:+ s3))).
  rewrite IH. reflexivity.
Qed.

Lemma string_app_cancel_r (s n n' : string) : n +:+ s = n' +:+ s -> n = n'.
Proof.
  intros H.
  assert (String.length n = String.length n') as Hlen.
  { apply (f_equal String.length) in H.
    rewrite !string_length_app in H. lia. }
  revert n' H Hlen. induction n as [|a n IH]; intros [|a' n'] H Hlen;
    simpl in Hlen; try discriminate; [reflexivity|].
  change (String a (n +:+ s) = String a' (n' +:+ s)) in H.
  injection H as -> H. f_equal. apply IH; [exact H | lia].
Qed.

Lemma os_path_join_relative a b :
  starts_with_sep b = false ->
  exists prefix, forall b', starts_with_sep b' = false ->
                            os_path_join a b' = prefix +:+ b'.
Proof.
  intros _. unfold os_path_join.
  destruct (bool_decide (a = "") || ends_with_sep a) eqn:E.
  - exists a. intros b' ->. reflexivity.
  - exists (a +:+ "/"). intros b' ->.
    symmetry. apply string_app_assoc.
Qed.

Lemma dumped_db_file_inj data_directory n n' :
  dumped_db_file data_directory n = dumped_db_file data_directory n' -> n = n'.
Proof.
  unfold dumped_db_file.
  destruct (os_path_join_relative data_directory ("data_" +:+ n +:+ ".parquet"))
    as [prefix Hp]; [reflexivity|].
  rewrite !Hp by reflexivity. intros H.
  apply String.app_inj in H. apply String.app_inj in H.
  apply string_app_cancel_r in H. exact H.
Qed.

Lemma all_chars_app p a b :
  all_chars p (a +:+ b) = all_chars p a && all_chars p b.
Proof.
  induction a as [|c a IH]; [reflexivity|].
  change (p c && all_chars p (a +:+ b) = p c && all_chars p a && all_chars p b).
  rewrite IH. apply andb_assoc.
Qed.

Lemma all_chars_impl (p q : ascii -> bool) s :
  (forall c, p c = true -> q c = true) ->
  all_chars p s = true -> all_chars q s = true.
Proof.
  intros Hpq. induction s as [|c s IH]; simpl; [trivial|].
  rewrite !andb_true_iff. intros [Hc Hs]. auto.
Qed.

Lemma identifier_char_not_quote c :
  identifier_char c = true -> negb (bool_decide (c = "'"%char)) = true.
Proof.
  destruct c as [[] [] [] [] [] [] [] []]; vm_compute;
    intros H; first [reflexivity | discriminate H].
Qed.

Lemma identifier_quote_free s : identifier_shape s = true -> quote_free s = true.
Proof.
  destruct s as [|c s]; simpl; [discriminate|].
  rewrite andb_true_iff. intros [Hc Hs]. unfold quote_free. simpl.
  rewrite identifier_char_not_quote.
  - simpl. eapply all_chars_impl; [apply identifier_char_not_quote | exact Hs].
  - unfold identifier_char. rewrite Hc. reflexivity.
Qed.

Lemma quote_free_os_path_join a b :
  starts_with_sep b = false ->
  quote_free (os_path_join a b) = quote_free a && quote_free b.
Proof.
  intros Hb. unfold os_path_join. rewrite Hb.
  destruct (bool_decide (a = "") || ends_with_sep a); unfold quote_free;
    rewrite !all_chars_app; reflexivity.
Qed.

(** The path of a dump file has a quote in it only if the directory has. *)
Lemma dumped_db_file_quote_free data_directory n :
  identifier_shape n = true ->
  quote_free (dumped_db_file data_directory n) = quote_free data_directory.
Proof.
  intros Hn. unfold dumped_db_file.
  rewrite quote_free_os_path_join by reflexivity.
  unfold quote_free at 2. rewrite !all_chars_app.
  fold (quote_free n). rewrite (identifier_quote_free n Hn).
  replace (all_chars (fun c => negb (bool_decide (c = "'"%char))) "data_")
    with true by reflexivity.
  replace (all_chars (fun c => negb (bool_decide (c = "'"%char))) ".parquet")
    with true by reflexivity.
  simpl. apply andb_true_r.
Qed.

Lemma copy_statement_bare data_directory n :
  quote_free data_directory = true ->
  unquoted_identifier n = true ->
  copy_statement n (dumped_db_file data_directory n)
  = Some (COPY_TO n (dumped_db_file data_directory n)).
Proof.
  intros Hdir Hn. unfold copy_statement. rewrite Hn.
  unfold unquoted_identifier in Hn. apply andb_true_iff in Hn as [Hn _].
  rewrite dumped_db_file_quote_free, Hdir by exact Hn. reflexivity.
Qed.

Lemma copy_statement_quoted data_directory n :
  quote_free data_directory = false ->
  copy_statement n (dumped_db_file data_directory n) = None.
Proof.
  intros Hdir. unfold copy_statement.
  destruct (unquoted_identifier n) eqn:Hn; [|reflexivity].
  unfold unquoted_identifier in Hn. apply andb_true_iff in Hn as [Hn _].
  rewrite dumped_db_file_quote_free, Hdir by exact Hn. reflexivity.
Qed.

Lemma schema_names_bare d :
  d ∈ tbl_schema -> unquoted_identifier (tbl_name d) = true.
Proof.
  intros Hd. unfold unquoted_identifier.
  rewrite (schema_names_free d Hd). unfold tbl_schema in Hd.
  repeat (apply elem_of_cons in Hd as [->|Hd]); [reflexivity..|inversion Hd].
Qed.

Lemma execute_copy_found name path w t :
  copy_statement name path = Some (COPY_TO name path) ->
  find_table name (db w) = Some t ->
  (_ ← execute_copy name path; mret tt : cell unit) w =
  (inr tt, {| db := db w;
              files := <[path := snapshot t]> (files w) |}).
Proof.
  intros Hs Ht.
  rewrite (bind_returns _ (fun _ => mret tt) w NoResult
             {| db := db w; files := <[path := snapshot t]> (files w) |});
    [reflexivity|].
  unfold execute_copy. rewrite Hs. simpl. rewrite Ht. reflexivity.
Qed.

Lemma execute_copy_rejected name path w :
  copy_statement name path = None ->
  (_ ← execute_copy name path; mret tt : cell unit) w = (inl ParserException, w).
Proof.
  intros Hs. apply bind_raises. unfold execute_copy. rewrite Hs. reflexivity.
Qed.

Lemma execute_copy_missing name path w :
  copy_statement name path = Some (COPY_TO name path) ->
  find_table name (db w) = None ->
  (_ ← execute_copy name path; mret tt : cell unit) w = (inl CatalogException, w).
Proof.
  intros Hs Ht. apply bind_raises. unfold execute_copy. rewrite Hs.
  simpl. rewrite Ht. reflexivity.
Qed.

Lemma dump_loop data_directory (names : list string) :
  forall w,
    NoDup names ->
    (forall n, n ∈ names ->
       copy_statement n (dumped_db_file data_directory n)
       = Some (COPY_TO n (dumped_db_file data_directory n))) ->
    (forall n, n ∈ names -> is_Some (find_table n (db w))) ->
    exists w',
      for_each names
        (fun table0 =>
           _ ← execute_copy table0 (dumped_db_file data_directory table0);
           mret tt) w = (inr tt, w')
      /\ db w' = db w
      /\ (forall n, n ∈ names ->
            exists t, find_table n (db w) = Some t
                      /\ files w' !! dumped_db_file data_directory n = Some (snapshot t))
      /\ (forall p, (forall n, n ∈ names -> p <> dumped_db_file data_directory n) ->
            files w' !! p = files w !! p).
Proof.
  induction names as [|n ns IH]; intros w Hnd Hbare Hall.
  - exists w. split; [reflexivity|]. split; [reflexivity|]. split.
    + intros n Hn. inversion Hn.
    + reflexivity.
  - apply NoDup_cons in Hnd as [Hn Hnd].
    destruct (Hall n) as [t Ht]; [left|].
    set (w1 := {| db := db w;
                  files := <[dumped_db_file data_directory n := snapshot t]> (files w) |}).
    destruct (IH w1 Hnd) as (w' & Hrun & Hdb & Hin & Hout).
    { intros m Hm. apply Hbare. right. exact Hm. }
    { intros m Hm. simpl. apply Hall. right. exact Hm. }
    exists w'. split; [|split; [|split]].
    + rewrite (for_each_cons_returns _ _ _ _ w1); [exact Hrun|].
      apply execute_copy_found; [apply Hbare; left | exact Ht].
    + rewrite Hdb. reflexivity.
    + intros m Hm. apply elem_of_cons in Hm as [->|Hm].
      * exists t. split; [exact Ht|].
        rewrite Hout.
        -- simpl. apply lookup_insert_eq.
        -- intros m Hm E. apply dumped_db_file_inj in E. subst m. contradiction.
      * apply Hin in Hm. exact Hm.
    + intros p Hp. rewrite Hout.
      * simpl. apply lookup_insert_ne. intros E. eapply Hp; [left|]. symmetry. exact E.
      * intros m Hm. apply Hp. right. exact Hm.
Qed.

Lemma show_tables_built w :
  built w ->
  execute SHOW_TABLES w =
  (inr (Names ["tbl_log"; "tbl_response"; "tbl_reviewer"; "tbl_source"]), w).
Proof.
  intros Hb. destruct (built_tables w Hb) as (r1 & r2 & r3 & r4 & E).
  simpl. rewrite E. reflexivity.
Qed.

Lemma schema_name_cases n :
  n ∈ ["tbl_log"; "tbl_response"; "tbl_reviewer"; "tbl_source"] ->
  exists d, d ∈ tbl_schema /\ n = tbl_name d.
Proof.
  intros Hn. repeat (apply elem_of_cons in Hn as [->|Hn]); [..|inversion Hn].
  - exists tbl_log. split; [apply log_in_schema | reflexivity].
  - exists tbl_response. split; [apply response_in_schema | reflexivity].
  - exists tbl_reviewer. split; [apply reviewer_in_schema | reflexivity].
  - exists tbl_source. split; [apply source_in_schema | reflexivity].
Qed.


(** ** Inserting into the tables of the schema *)

Lemma cast_row_length cols r r' :
  cast_row cols r = Some r' -> length r = length cols /\ length r' = length cols.
Proof.
  revert r r'. induction cols as [|c cols IH]; intros [|v r] r'; simpl;
    try discriminate.
  - intros [= <-]. auto.
  - destruct (cast (snd c) v) as [v'|]; simpl; [|discriminate].
    destruct (cast_row cols r) as [vs|] eqn:E; simpl; [|discriminate].
    intros [= <-]. destruct (IH _ _ E). simpl. auto.
Qed.

Lemma cast_row_nulls cols :
  cast_row cols (replicate (length cols) PyNone)
  = Some (replicate (length cols) NULL).
Proof.
  induction cols as [|c cols IH]; simpl; [reflexivity|].
  rewrite cast_none. simpl. rewrite IH. reflexivity.
Qed.

(** A row that converts is appended to a table of the schema. *)
Lemma insert_values_built w d params r' :
  built w -> d ∈ tbl_schema ->
  cast_row (tbl_columns d) params = Some r' ->
  exists w',
    execute (INSERT_VALUES (tbl_name d) params) w = (inr NoResult, w')
    /\ built w'
    /\ table_rows w' (tbl_name d) = table_rows w (tbl_name d) ++ [r'].
Proof.
  intros Hb Hd Hc. destruct (built_find w d Hb Hd) as [rs Hfind].
  eexists. split; [|split].
  - simpl. apply (insert_into_unconstrained _ _ _ _ _ [r'] Hfind).
    + simpl. apply schema_unconstrained, Hd.
    + simpl. apply cast_row_length in Hc. tauto.
    + unfold cast_rows. simpl. rewrite Hc. reflexivity.
  - apply built_set_rows, Hb.
  - rewrite (table_rows_set_rows_eq _ _ _ _ Hfind).
    unfold table_rows. rewrite Hfind. reflexivity.
Qed.

(** C1.  None of the four tables declares a constraint, and on a database
    built from the schema a second response row for a (reviewer_id,
    document_id) pair that a stored row already has is inserted without
    error: afterwards the table holds the old rows, the earlier row among
    them, followed by the new one. *)
Theorem duplicate_response_accepted
    (w : world) (r : row) (params : list pyval) (r' : row) :
  built w ->
  r ∈ table_rows w "tbl_response" ->
  cast_row (tbl_columns tbl_response) params = Some r' ->
  field tbl_response "reviewer_id" r' = field tbl_response "reviewer_id" r ->
  field tbl_response "document_id" r' = field tbl_response "document_id" r ->
  (forall d, d ∈ tbl_schema -> tbl_constraints d = [])
  /\ exists w',
       execute (INSERT_VALUES "tbl_response" params) w = (inr NoResult, w')
       /\ built w'
       /\ table_rows w' "tbl_response" = table_rows w "tbl_response" ++ [r']
       /\ r ∈ table_rows w' "tbl_response".
Proof.
  intros Hb Hr Hc _ _. split; [exact schema_unconstrained|].
  destruct (insert_values_built w tbl_response params r' Hb) as (w' & He & Hb' & Hrows);
    [apply response_in_schema | exact Hc |].
  exists w'. repeat split; try assumption.
  simpl in Hrows. rewrite Hrows. apply elem_of_app. left. exact Hr.
Qed.

(** C9.  No column of the four tables is declared NOT NULL: [DESCRIBE]
    reports every column as nullable, and on a database built from the
    schema a row of NULLs, one per column, is inserted into any of the four
    tables without error. *)
Theorem null_row_accepted (w : world) (d : table_def) :
  built w ->
  d ∈ tbl_schema ->
  (forall line, line ∈ describe d -> dr_null line = "YES")
  /\ exists w',
       execute (INSERT_VALUES (tbl_name d)
                  (replicate (length (tbl_columns d)) PyNone)) w
       = (inr NoResult, w')
       /\ table_rows w' (tbl_name d)
          = table_rows w (tbl_name d) ++ [replicate (length (tbl_columns d)) NULL].
Proof.
  intros Hb Hd. split.
  - intros line Hline. unfold tbl_schema in Hd.
    repeat (apply elem_of_cons in Hd as [->|Hd]); [..|inversion Hd];
      cbv [describe tbl_columns tbl_log tbl_response tbl_reviewer tbl_source map] in Hline;
      repeat (apply elem_of_cons in Hline as [->|Hline]); try reflexivity;
      inversion Hline.
  - destruct (insert_values_built w d _ _ Hb Hd (cast_row_nulls (tbl_columns d)))
      as (w' & He & _ & Hrows).
    exists w'. split; assumption.
Qed.

(** ** Stored rows are well typed *)

Lemma cast_row_lookup cols r r' :
  cast_row cols r = Some r' ->
  forall j v, r !! j = Some v ->
    exists c v', cols !! j = Some c /\ cast (snd c) v = Some v' /\ r' !! j = Some v'.
Proof.
  revert r r'. induction cols as [|c cols IH]; intros [|v0 r] r' Hc j v Hj;
    simpl in Hc; try discriminate.
  destruct (cast (snd c) v0) as [v0'|] eqn:E0; simpl in Hc; [|discriminate].
  destruct (cast_row cols r) as [vs|] eqn:E; simpl in Hc; [|discriminate].
  injection Hc as <-. destruct j as [|j]; simpl in *.
  - injection Hj as <-. eauto.
  - eapply IH; eassumption.
Qed.

Lemma cast_row_conforms cols r r' :
  cast_row cols r = Some r' -> row_conforms cols r'.
Proof.
  revert r r'. induction cols as [|c cols IH]; intros [|v0 r] r'; simpl;
    try discriminate.
  - intros [= <-]. constructor.
  - destruct (cast (snd c) v0) as [v0'|] eqn:E0; simpl; [|discriminate].
    destruct (cast_row cols r) as [vs|] eqn:E; simpl; [|discriminate].
    intros [= <-]. constructor; [eapply cast_typed, E0 | eapply IH, E].
Qed.

Lemma cast_rows_conform cols rs rs' :
  cast_rows cols rs = Some rs' -> Forall (row_conforms cols) rs'.
Proof.
  unfold cast_rows. intros H. apply mapM_Some in H.
  induction H as [|r r' rs rs' Hr _ IH]; constructor;
    [eapply cast_row_conforms, Hr | exact IH].
Qed.

Lemma set_rows_conforms name rs cat t :
  find_table name cat = Some t ->
  Forall (row_conforms (tbl_columns (tdef t))) rs ->
  Forall (fun t0 => Forall (row_conforms (tbl_columns (tdef t0))) (trows t0)) cat ->
  Forall (fun t0 => Forall (row_conforms (tbl_columns (tdef t0))) (trows t0))
         (set_rows name rs cat).
Proof.
  unfold find_table. intros Hfind Hrs Hcat.
  induction Hcat as [|t0 cat H0 Hcat IH]; simpl in *; [discriminate|].
  destruct (bool_decide (same_name (tbl_name (tdef t0)) name)).
  - injection Hfind as ->. constructor; assumption.
  - constructor; [exact H0 | apply IH, Hfind].
Qed.

Lemma execute_conforms s w : db_conforms w -> db_conforms (after (execute s) w).
Proof.
  assert (forall target width rs,
            db_conforms w -> db_conforms (after (insert_into target width rs) w))
    as Hins.
  { intros target width rs Hw. unfold after.
    destruct (insert_into_outcome target width rs w) as [e|t rs' Ht Hwd Hc];
      simpl; [exact Hw|].
    unfold db_conforms. simpl.
    apply (set_rows_conforms _ _ _ _ Ht); [|exact Hw].
    apply Forall_app. split; [|eapply cast_rows_conform, Hc].
    apply find_table_name in Ht as [_ Hin].
    unfold db_conforms in Hw. rewrite Forall_forall in Hw.
    apply Hw, list_elem_of_In, Hin. }
  intros Hw. destruct s; unfold after; simpl; try (apply Hins, Hw).
  - destruct (bool_decide _ || negb _); simpl; [exact Hw|].
    unfold db_conforms. simpl. apply Forall_app. split; [exact Hw|].
    constructor; [constructor | constructor].
  - exact Hw.
  - destruct (find_table name (db w)); exact Hw.
  - destruct (find_table name (db w)); exact Hw.
  - destruct (find_table name (db w)); exact Hw.
Qed.

Lemma execute_all_conforms ss : db_conforms (execute_all ss empty_world).
Proof.
  apply (fold_invariant db_conforms (fun s w => after (execute s) w)).
  - intros s w. apply execute_conforms.
  - constructor.
Qed.

(** C7.  [DESCRIBE tbl_response] lists the eight columns reviewer_id,
    reviewer_name, document_id, alignment, science, benefits, comments and
    screening_order with their types, and every row that statements put
    into [tbl_response] consists of exactly eight values: an integer
    reviewer id, a text reviewer name, an integer document id, three integer
    scores, a text of comments and an integer screening order (each possibly
    NULL). *)
Theorem response_row_shape (ss : list statement) (w : world) (r : row) :
  w = execute_all ss empty_world ->
  built w ->
  r ∈ table_rows w "tbl_response" ->
  describe_response w =
    (inr (Description
            [("reviewer_id", "INTEGER", "YES", None, None, None);
             ("reviewer_name", "VARCHAR", "YES", None, None, None);
             ("document_id", "INTEGER", "YES", None, None, None);
             ("alignment", "INTEGER", "YES", None, None, None);
             ("science", "INTEGER", "YES", None, None, None);
             ("benefits", "INTEGER", "YES", None, None, None);
             ("comments", "VARCHAR", "YES", None, None, None);
             ("screening_order", "INTEGER", "YES", None, None, None)]), w)
  /\ exists reviewer_id reviewer_name document_id alignment science benefits
            comments screening_order,
       r = [reviewer_id; reviewer_name; document_id; alignment; science;
            benefits; comments; screening_order]
       /\ has_type INTEGER reviewer_id
       /\ has_type VARCHAR reviewer_name
       /\ has_type INTEGER document_id
       /\ has_type INTEGER alignment
       /\ has_type INTEGER science
       /\ has_type INTEGER benefits
       /\ has_type VARCHAR comments
       /\ has_type INTEGER screening_order.
Proof.
  intros -> Hb Hr.
  destruct (built_find _ tbl_response Hb) as [rs Hfind];
    [apply response_in_schema|].
  change (tbl_name tbl_response) with "tbl_response" in Hfind. split.
  - unfold describe_response. simpl. rewrite Hfind. reflexivity.
  - unfold table_rows in Hr. rewrite Hfind in Hr. simpl in Hr.
    pose proof (execute_all_conforms ss) as Hconf.
    unfold db_conforms in Hconf. rewrite Forall_forall in Hconf.
    apply find_table_name in Hfind as [_ Hin].
    apply list_elem_of_In, Hconf in Hin. simpl in Hin.
    rewrite Forall_forall in Hin. specialize (Hin r Hr).
    unfold row_conforms in Hin.
    repeat match goal with
           | H : Forall2 _ (_ :: _) _ |- _ =>
               apply Forall2_cons_inv_l in H as (? & ? & ? & H & ->)
           | H : Forall2 _ [] _ |- _ => apply Forall2_nil_inv_l in H as ->
           end.
    do 8 eexists. split; [reflexivity|]. simpl in *. tauto.
Qed.

(** ** The bulk import *)

(** C8.  The bulk import binds by position: on a database built from the
    schema, a DataFrame with as many columns as the table, whatever their
    names, whose values all convert to the types of the columns at their
    positions is appended to the table, the value at position j of a row
    landing, converted, in column j; when some value does not convert, the
    statement raises a conversion error and nothing is inserted. *)
Theorem bulk_import_is_positional (w : world) (d : table_def) (df : dataframe) :
  built w ->
  d ∈ tbl_schema ->
  length (df_columns df) = length (tbl_columns d) ->
  match cast_rows (tbl_columns d) (df_rows df) with
  | Some rs' =>
      (exists w',
         execute (INSERT_SELECT (tbl_name d) df) w = (inr NoResult, w')
         /\ table_rows w' (tbl_name d) = table_rows w (tbl_name d) ++ rs')
      /\ length rs' = length (df_rows df)
      /\ forall i j cells v,
           df_rows df !! i = Some cells -> cells !! j = Some v ->
           exists c v' r',
             tbl_columns d !! j = Some c
             /\ cast (snd c) v = Some v'
             /\ rs' !! i = Some r'
             /\ r' !! j = Some v'
  | None =>
      execute (INSERT_SELECT (tbl_name d) df) w = (inl ConversionException, w)
  end.
Proof.
  intros Hb Hd Hlen. destruct (built_find w d Hb Hd) as [rs Hfind].
  destruct (cast_rows (tbl_columns d) (df_rows df)) as [rs'|] eqn:Hc.
  - split; [|split].
    + eexists. split.
      * simpl. apply (insert_into_unconstrained _ _ _ _ _ rs' Hfind);
          [apply schema_unconstrained, Hd | exact Hlen | exact Hc].
      * rewrite (table_rows_set_rows_eq _ _ _ _ Hfind).
        unfold table_rows. rewrite Hfind. reflexivity.
    + apply length_mapM in Hc. symmetry. exact Hc.
    + intros i j cells v Hi Hj. unfold cast_rows in Hc.
      apply mapM_Some in Hc.
      destruct (Forall2_lookup_l _ _ _ _ _ Hc Hi) as (r' & Hr' & Hcast).
      destruct (cast_row_lookup _ _ _ Hcast _ _ Hj) as (c & v' & ? & ? & ?).
      exists c, v', r'. auto.
  - simpl. unfold insert_into. rewrite Hfind. simpl.
    rewrite bool_decide_eq_true_2 by exact Hlen. simpl. rewrite Hc. reflexivity.
Qed.

(** Whatever else the engine converts, a name is no integer: the reviewers
    file with its two columns exchanged is rejected. *)
Lemma reordered_reviewers_raise w :
  built w ->
  execute (INSERT_SELECT "tbl_reviewer" df_reviewer_reordered) w
  = (inl ConversionException, w).
Proof.
  intros Hb. destruct (built_find w tbl_reviewer Hb reviewer_in_schema) as [rs Hfind].
  change (tbl_name tbl_reviewer) with "tbl_reviewer" in Hfind.
  simpl. unfold insert_into. rewrite Hfind. simpl.
  unfold cast_rows. simpl.
  rewrite !cast_integer_text by reflexivity. reflexivity.
Qed.

(** ** What the operations keep *)

Lemma same_defs_empty_or_built w w' :
  same_defs w w' -> empty_or_built w -> empty_or_built w'.
Proof.
  unfold same_defs, empty_or_built, built. intros H [E|E].
  - left. rewrite E in H. simpl in H. apply map_eq_nil in H. exact H.
  - right. rewrite H. exact E.
Qed.

Lemma build_database_keeps name w : keeps name w (after build_database w).
Proof.
  apply (for_each_related (keeps name) (keeps_refl name) (keeps_trans name)).
  intros d w0. apply step_keeps. intros target H. discriminate H.
Qed.

Lemma build_database_empty_or_built w :
  empty_or_built w -> empty_or_built (after build_database w).
Proof.
  intros [E|Hb]; right.
  - destruct w as [cat fs]. simpl in E. subst cat. reflexivity.
  - destruct (built_tables w Hb) as (r1 & r2 & r3 & r4 & E).
    destruct w as [cat fs]. simpl in E. subst cat. reflexivity.
Qed.

Lemma check_build_unchanged w : after check_build w = w.
Proof. reflexivity. Qed.

Lemma add_starter_data_keeps name df_source df_reviewer w :
  ~ same_name "tbl_source" name -> ~ same_name "tbl_reviewer" name ->
  keeps name w (after (add_starter_data df_source df_reviewer) w).
Proof.
  intros H1 H2. apply (bind_related (keeps name) (keeps_trans name)).
  - intros w0. apply execute_keeps. intros target [= <-]. exact H1.
  - intros _ w0. apply step_keeps. intros target [= <-]. exact H2.
Qed.

Lemma add_starter_data_same_defs df_source df_reviewer w :
  same_defs w (after (add_starter_data df_source df_reviewer) w).
Proof.
  apply (bind_related same_defs same_defs_trans).
  - intros w0. apply execute_same_defs. reflexivity.
  - intros _ w0. apply step_same_defs. reflexivity.
Qed.

(** A single-row [INSERT] into a table of the schema either raises and
    changes nothing or appends the converted row; the other tables stay as
    they are. *)
Lemma insert_one_effect d params w :
  empty_or_built w -> d ∈ tbl_schema ->
  same_defs w (after (_ ← execute (INSERT_VALUES (tbl_name d) params);
                      mret tt : cell unit) w)
  /\ (forall name, ~ same_name (tbl_name d) name ->
        keeps name w (after (_ ← execute (INSERT_VALUES (tbl_name d) params);
                             mret tt : cell unit) w))
  /\ (keeps (tbl_name d) w
        (after (_ ← execute (INSERT_VALUES (tbl_name d) params);
                mret tt : cell unit) w)
      \/ exists r', cast_row (tbl_columns d) params = Some r'
                    /\ table_rows
                         (after (_ ← execute (INSERT_VALUES (tbl_name d) params);
                                 mret tt : cell unit) w) (tbl_name d)
                       = table_rows w (tbl_name d) ++ [r']).
Proof.
  intros Hw Hd. split; [|split].
  - apply step_same_defs. reflexivity.
  - intros name Hne. apply step_keeps. intros target [= <-]. exact Hne.
  - rewrite after_bind. simpl.
    destruct (insert_into_outcome (tbl_name d) (length params) [params] w)
      as [e|t rs' Ht Hlen Hc]; [left; reflexivity|].
    right. destruct Hw as [E|Hb]; [rewrite E in Ht; discriminate|].
    destruct (built_find w d Hb Hd) as [rs Hfind].
    rewrite Hfind in Ht. injection Ht as <-. simpl in *.
    unfold cast_rows in Hc. simpl in Hc.
    destruct (cast_row (tbl_columns d) params) as [r'|]; [|discriminate].
    injection Hc as <-. exists r'. split; [reflexivity|].
    unfold after. simpl.
    rewrite (table_rows_set_rows_eq _ _ _ _ Hfind).
    unfold table_rows. rewrite Hfind. reflexivity.
Qed.

Lemma perform_empty_or_built o w :
  empty_or_built w -> empty_or_built (perform o w).
Proof.
  intros Hw. destruct o; simpl; try exact Hw.
  - apply build_database_empty_or_built, Hw.
  - eapply same_defs_empty_or_built; [|exact Hw].
    apply execute_same_defs. reflexivity.
  - eapply same_defs_empty_or_built; [|exact Hw].
    apply add_starter_data_same_defs.
  - eapply same_defs_empty_or_built; [|exact Hw].
    apply execute_same_defs. reflexivity.
  - eapply same_defs_empty_or_built; [|exact Hw].
    unfold same_defs. rewrite dump_database_same_db. reflexivity.
  - eapply same_defs_empty_or_built; [|exact Hw].
    apply step_same_defs. reflexivity.
  - eapply same_defs_empty_or_built; [|exact Hw].
    apply step_same_defs. reflexivity.
Qed.

Lemma run_empty_or_built ops w :
  empty_or_built w -> empty_or_built (run ops w).
Proof. apply (fold_invariant empty_or_built perform), perform_empty_or_built. Qed.

(** ** The review queue *)

Lemma response_row_fields rv n d a s b c o r' :
  cast_row (tbl_columns tbl_response)
    [PyInt rv; PyStr n; PyInt d; PyInt a; PyInt s; PyInt b; PyStr c; PyInt o]
  = Some r' ->
  field tbl_response "reviewer_id" r' = VInt rv
  /\ field tbl_response "document_id" r' = VInt d.
Proof.
  simpl. rewrite !cast_integer, !cast_varchar.
  destruct (in_int32 rv), (in_int32 d), (in_int32 a), (in_int32 s),
    (in_int32 b), (in_int32 o); simpl; try discriminate.
  intros [= <-]. split; reflexivity.
Qed.

Lemma log_row_fields rv d c r' :
  cast_row (tbl_columns tbl_log) [PyInt rv; PyInt d; PyStr c] = Some r' ->
  field tbl_log "reviewer_id" r' = VInt rv
  /\ field tbl_log "document_id" r' = VInt d.
Proof.
  simpl. rewrite !cast_integer, !cast_varchar.
  destruct (in_int32 rv), (in_int32 d); simpl; try discriminate.
  intros [= <-]. split; reflexivity.
Qed.

Lemma length_filter_snoc {A} (P : A -> Prop) `{forall x, Decision (P x)}
    (l : list A) (x : A) :
  length (filter P (l ++ [x]))
  = (length (filter P l) + if decide (P x) then 1 else 0)%nat.
Proof.
  rewrite filter_app, List.length_app. f_equal.
  rewrite filter_cons, filter_nil. destruct (decide (P x)); reflexivity.
Qed.

(** What an operation does to the responses: nothing, or one more row, for
    the reviewer and the document of the insert. *)
Lemma perform_responses o w :
  empty_or_built w ->
  keeps "tbl_response" w (perform o w)
  \/ exists rv n d a s b c so r',
       o = SubmitResponse rv n d a s b c so
       /\ table_rows (perform o w) "tbl_response"
          = table_rows w "tbl_response" ++ [r']
       /\ field tbl_response "reviewer_id" r' = VInt rv
       /\ field tbl_response "document_id" r' = VInt d.
Proof.
  intros Hw. destruct o; simpl; try (left; reflexivity).
  - left. apply build_database_keeps.
  - left. apply execute_keeps. intros target H. discriminate H.
  - left. apply add_starter_data_keeps; names_differ.
  - left. apply execute_keeps. intros target H. discriminate H.
  - left. unfold keeps, table_rows. rewrite dump_database_same_db. reflexivity.
  - destruct (insert_one_effect tbl_response
                [PyInt rv; PyStr reviewer_name; PyInt d; PyInt alignment;
                 PyInt science; PyInt benefits; PyStr comments;
                 PyInt screening_order] w Hw response_in_schema)
      as (_ & _ & [Hk|(r' & Hc & Hrows)]); [left; exact Hk|].
    right. exists rv, reviewer_name, d, alignment, science, benefits, comments,
      screening_order, r'.
    destruct (response_row_fields _ _ _ _ _ _ _ _ _ Hc). auto.
  - left. apply (insert_one_effect tbl_log _ w Hw log_in_schema). names_differ.
Qed.

(** What an operation does to the conflict log: nothing, or one more row,
    for the reviewer and the document of the insert. *)
Lemma perform_log o w :
  empty_or_built w ->
  keeps "tbl_log" w (perform o w)
  \/ exists rv d c r',
       o = DeclareConflict rv d c
       /\ table_rows (perform o w) "tbl_log" = table_rows w "tbl_log" ++ [r']
       /\ field tbl_log "reviewer_id" r' = VInt rv
       /\ field tbl_log "document_id" r' = VInt d.
Proof.
  intros Hw. destruct o; simpl; try (left; reflexivity).
  - left. apply build_database_keeps.
  - left. apply execute_keeps. intros target H. discriminate H.
  - left. apply add_starter_data_keeps; names_differ.
  - left. apply execute_keeps. intros target H. discriminate H.
  - left. unfold keeps, table_rows. rewrite dump_database_same_db. reflexivity.
  - left. apply (insert_one_effect tbl_response _ w Hw response_in_schema).
    names_differ.
  - destruct (insert_one_effect tbl_log [PyInt rv; PyInt d; PyStr conflict] w Hw
                log_in_schema)
      as (_ & _ & [Hk|(r' & Hc & Hrows)]); [left; exact Hk|].
    right. exists rv, d, conflict, r'.
    destruct (log_row_fields _ _ _ _ Hc). auto.
Qed.

Section ReviewQueue.

Variable MAX_REVIEWS_PER_DOCUMENT : nat.
Variable MAX_REVIEWS_PER_REVIEWER : nat.

Abbreviation next_doc :=
  (next_document MAX_REVIEWS_PER_DOCUMENT MAX_REVIEWS_PER_REVIEWER).
Abbreviation eligible_doc := (eligible MAX_REVIEWS_PER_DOCUMENT).
Abbreviation in_step :=
  (in_step_with_queue MAX_REVIEWS_PER_DOCUMENT MAX_REVIEWS_PER_REVIEWER).
Abbreviation all_in_step :=
  (runs_in_step MAX_REVIEWS_PER_DOCUMENT MAX_REVIEWS_PER_REVIEWER).
Abbreviation reachable_state :=
  (reachable MAX_REVIEWS_PER_DOCUMENT MAX_REVIEWS_PER_REVIEWER).
Abbreviation caps_hold :=
  (within_caps MAX_REVIEWS_PER_DOCUMENT MAX_REVIEWS_PER_REVIEWER).

(** The queue hands out a document only below both caps, without a logged
    conflict and not yet reviewed by this reviewer. *)
Lemma next_document_Some w rv d :
  next_doc w rv = Some d ->
  (responses_by_reviewer w rv < MAX_REVIEWS_PER_REVIEWER)%nat
  /\ eligible_doc w rv d.
Proof.
  unfold next_document.
  destruct (decide (responses_by_reviewer w rv < MAX_REVIEWS_PER_REVIEWER)%nat)
    as [Hlt|]; [|discriminate].
  intros H. split; [exact Hlt|].
  apply head_Some_elem_of, list_elem_of_filter in H. tauto.
Qed.

Lemma reachable_empty_or_built w : reachable_state w -> empty_or_built w.
Proof.
  intros (ops & _ & ->). apply run_empty_or_built. left. reflexivity.
Qed.

(** A property that every operation in step with the queue keeps holds
    along every run in step with the queue. *)
Lemma runs_in_step_invariant (P : world -> Prop) :
  (forall o w, empty_or_built w -> P w -> in_step w o = true -> P (perform o w)) ->
  forall ops w,
    empty_or_built w -> P w -> all_in_step ops w = true -> P (run ops w).
Proof.
  intros Hstep. induction ops as [|o ops IH]; intros w Hw HP Hops; [exact HP|].
  simpl in Hops. apply andb_true_iff in Hops as [Ho Hops].
  simpl. apply IH; [apply perform_empty_or_built, Hw | apply Hstep; assumption | exact Hops].
Qed.

Lemma perform_within_caps o w :
  empty_or_built w -> caps_hold w -> in_step w o = true -> caps_hold (perform o w).
Proof.
  intros Hw [Hd Hr] Hstep.
  destruct (perform_responses o w Hw)
    as [Hk|(rv & n & d & a & s & b & c & so & r' & -> & Hrows & Frv & Fd)].
  - unfold within_caps, responses_by_document, responses_by_reviewer.
    rewrite Hk. split; assumption.
  - simpl in Hstep. apply bool_decide_eq_true in Hstep.
    apply next_document_Some in Hstep as (Hlt & Hdoc & _).
    unfold within_caps, responses_by_document, responses_by_reviewer in *.
    rewrite Hrows. split.
    + intros d0. rewrite length_filter_snoc. rewrite Fd.
      destruct (decide (VInt d = VInt d0)) as [[= <-]|_].
      * lia.
      * specialize (Hd d0). lia.
    + intros rv0. rewrite length_filter_snoc. rewrite Frv.
      destruct (decide (VInt rv = VInt rv0)) as [[= <-]|_].
      * lia.
      * specialize (Hr rv0). lia.
Qed.

Lemma empty_world_within_caps : caps_hold empty_world.
Proof. split; intros; apply Nat.le_0_l. Qed.


(** C3.  Once the log holds a row for a reviewer and a document, the queue
    never presents that document to that reviewer again, whatever
    operations follow. *)
Theorem conflict_is_never_presented
    (w : world) (rv d : Z) (r : row) (ops : list operation) :
  r ∈ table_rows w "tbl_log" ->
  field tbl_log "reviewer_id" r = VInt rv ->
  field tbl_log "document_id" r = VInt d ->
  next_doc (run ops w) rv <> Some d.
Proof.
  intros Hr Frv Fd Hnext.
  apply next_document_Some in Hnext as (_ & _ & Hnone & _).
  destruct (run_extends ops w "tbl_log") as [added Hrows].
  unfold conflict_rows in Hnone. rewrite Hrows in Hnone.
  apply (filter_nil_not_elem_of _ _ r Hnone (conj Frv Fd)).
  apply elem_of_app. left. exact Hr.
Qed.

Lemma perform_one_conflict_row o w :
  empty_or_built w ->
  (forall rv d, (length (conflict_rows w rv d) <= 1)%nat) ->
  in_step w o = true ->
  forall rv d, (length (conflict_rows (perform o w) rv d) <= 1)%nat.
Proof.
  intros Hw Hone Hstep rv0 d0.
  destruct (perform_log o w Hw)
    as [Hk|(rv & d & c & r' & -> & Hrows & Frv & Fd)].
  - unfold conflict_rows. rewrite Hk. apply Hone.
  - simpl in Hstep. apply bool_decide_eq_true in Hstep.
    apply next_document_Some in Hstep as (_ & _ & Hnone & _).
    unfold conflict_rows in *. rewrite Hrows, length_filter_snoc, Frv, Fd.
    destruct (decide (VInt rv = VInt rv0 /\ VInt d = VInt d0))
      as [[[= <-] [= <-]]|_].
    + rewrite Hnone. simpl. lia.
    + specialize (Hone rv0 d0). lia.
Qed.


End ReviewQueue.

End Properties.

(** ** The model and the theorems at work on a small review *)

Section Review.

#[local] Existing Instance example_engine.

Example build_creates_four_tables :
  fst (check_build fresh_world)
  = inr ["tbl_log"; "tbl_response"; "tbl_reviewer"; "tbl_source"].
Proof. vm_compute. reflexivity. Qed.

Example build_twice_raises :
  build_database fresh_world = (inl CatalogException, fresh_world).
Proof. vm_compute. reflexivity. Qed.

Example import_converts_cells :
  table_rows loaded_world "tbl_reviewer" = [[VInt 1; VStr "Ada"]; [VInt 2; VStr "Grace"]]
  /\ map (fun r => (r !! 0%nat, r !! 1%nat, r !! 5%nat)) (table_rows loaded_world "tbl_source")
     = [ (Some (VInt 10), Some (VTime (Timestamp 2024 1 15 9 30 0)), Some (VStr "5551234"));
         (Some (VInt 11), Some (VTime (Timestamp 2024 2 29 0 0 0)), Some NULL) ].
Proof. split; vm_compute; reflexivity. Qed.

Example import_with_a_column_missing :
  execute (INSERT_SELECT "tbl_reviewer"
             {| df_columns := ["reviewer_id"]; df_rows := [[PyInt 1]] |}) fresh_world
  = (inl BinderException, fresh_world).
Proof. vm_compute. reflexivity. Qed.

Example cast_examples :
  cast INTEGER (PyStr "-12") = Some (VInt (-12))
  /\ cast INTEGER (PyStr "Ada") = None
  /\ cast INTEGER (PyInt 2147483648) = None
  /\ cast VARCHAR (PyInt (-7)) = Some (VStr "-7")
  /\ cast TIMESTAMP (PyStr "2023-02-29") = None
  /\ cast TIMESTAMP PyNone = Some NULL.
Proof. repeat split. Qed.

Example os_path_join_examples :
  os_path_join "/srv/data" "data_tbl_log.parquet" = "/srv/data/data_tbl_log.parquet"
  /\ os_path_join "/srv/data/" "data_tbl_log.parquet" = "/srv/data/data_tbl_log.parquet"
  /\ os_path_join "" "data_tbl_log.parquet" = "data_tbl_log.parquet"
  /\ os_path_join "/srv/data" "/tmp/x" = "/tmp/x".
Proof. repeat split. Qed.

Example catalog_ignores_case :
  same_name "TBL_LOG" "tbl_log"
  /\ table_rows reviewed_world "Tbl_Log" = table_rows reviewed_world "tbl_log"
  /\ ~ same_name "tbl_log" "tbl_logs".
Proof. split; [reflexivity|]. split; [vm_compute; reflexivity | names_differ]. Qed.

Example copy_statement_examples :
  copy_statement "tbl_log" "/srv/data/data_tbl_log.parquet"
  = Some (COPY_TO "tbl_log" "/srv/data/data_tbl_log.parquet")
  /\ copy_statement "order" "/srv/data/data_order.parquet" = None
  /\ copy_statement "my table" "/srv/data/data_my table.parquet" = None
  /\ copy_statement "tbl_log" "/srv/o'brien/data_tbl_log.parquet" = None.
Proof. repeat split. Qed.

Example queue_examples :
  next_document 2 2 loaded_world 1 = Some 10
  /\ next_document 2 2 reviewed_world 1 = Some 11
  /\ next_document 2 2 reviewed_world 2 = Some 11
  /\ next_document 1 2 reviewed_world 2 = Some 11
  /\ next_document 2 1 reviewed_world 1 = None
  /\ table_rows reviewed_world "tbl_response" = [response_example]
  /\ table_rows reviewed_world "tbl_log" = [log_example].
Proof. repeat split; vm_compute; reflexivity. Qed.

(** A constraint, had the schema declared one, would reject the second row
    for a pair. *)
Example unique_would_reject :
  let keyed :=
    {| tdef := {| tbl_name := "tbl_log";
                  tbl_columns := tbl_columns tbl_log;
                  tbl_constraints := [UNIQUE ["reviewer_id"; "document_id"]] |};
       trows := [log_example] |} in
  accepts [keyed] keyed [VInt 2; VInt 10; VStr "again"] = false
  /\ accepts [keyed] keyed [VInt 2; VInt 11; VStr "other"] = true
  /\ accepts [keyed] keyed [VInt 2; NULL; VStr "no document"] = true.
Proof. repeat split. Qed.

Lemma duplicate_response_accepted_witness :
  built reviewed_world
  /\ response_example ∈ table_rows reviewed_world "tbl_response"
  /\ (forall d, d ∈ tbl_schema -> tbl_constraints d = [])
  /\ exists w',
       execute (INSERT_VALUES "tbl_response" response_again) reviewed_world
       = (inr NoResult, w')
       /\ built w'
       /\ table_rows w' "tbl_response"
          = table_rows reviewed_world "tbl_response"
            ++ [[VInt 1; VStr "Ada"; VInt 10; VInt 2; VInt 2; VInt 2;
                 VStr "again"; VInt 2]]
       /\ response_example ∈ table_rows w' "tbl_response".
Proof.
  assert (response_example ∈ table_rows reviewed_world "tbl_response") as Hin.
  { apply list_elem_of_In. vm_compute. left. reflexivity. }
  split; [vm_compute; reflexivity|]. split; [exact Hin|].
  apply (duplicate_response_accepted reviewed_world response_example response_again).
  - vm_compute. reflexivity.
  - exact Hin.
  - vm_compute. reflexivity.
  - vm_compute. reflexivity.
  - vm_compute. reflexivity.
Defined.



Lemma conflict_is_never_presented_witness :
  log_example ∈ table_rows reviewed_world "tbl_log"
  /\ next_document 2 2
       (run [NextDocument 2; SubmitResponse 2 "Grace" 11 4 4 4 "fine" 1;
             NextDocument 2]
            reviewed_world) 2
     <> Some 10.
Proof.
  assert (log_example ∈ table_rows reviewed_world "tbl_log") as Hin.
  { apply list_elem_of_In. vm_compute. left. reflexivity. }
  split; [exact Hin|].
  apply (conflict_is_never_presented 2 2 reviewed_world 2 10 log_example).
  - exact Hin.
  - vm_compute. reflexivity.
  - vm_compute. reflexivity.
Defined.





Lemma response_row_shape_witness :
  built (execute_all statements_example empty_world)
  /\ response_example
       ∈ table_rows (execute_all statements_example empty_world) "tbl_response"
  /\ exists reviewer_id reviewer_name document_id alignment science benefits
            comments screening_order,
       response_example
       = [reviewer_id; reviewer_name; document_id; alignment; science;
          benefits; comments; screening_order]
       /\ has_type INTEGER reviewer_id
       /\ has_type VARCHAR reviewer_name
       /\ has_type INTEGER document_id
       /\ has_type INTEGER alignment
       /\ has_type INTEGER science
       /\ has_type INTEGER benefits
       /\ has_type VARCHAR comments
       /\ has_type INTEGER screening_order.
Proof.
  assert (built (execute_all statements_example empty_world)) as Hb
    by (vm_compute; reflexivity).
  assert (response_example
            ∈ table_rows (execute_all statements_example empty_world) "tbl_response")
    as Hin.
  { apply list_elem_of_In. vm_compute. left. reflexivity. }
  split; [exact Hb|]. split; [exact Hin|].
  apply (response_row_shape statements_example
           (execute_all statements_example empty_world) response_example
           eq_refl Hb Hin).
Defined.

(** C8, as first stated, fails: the reviewers file with its two columns
    exchanged has the right number of columns, yet the import raises,
    because a name does not convert to the INTEGER of [reviewer_id], and
    the table stays empty. *)
Lemma reordered_reviewers_rejected :
  built fresh_world
  /\ length (df_columns df_reviewer_reordered) = length (tbl_columns tbl_reviewer)
  /\ execute (INSERT_SELECT "tbl_reviewer" df_reviewer_reordered) fresh_world
     = (inl ConversionException, fresh_world)
  /\ fst (add_starter_data df_source_example df_reviewer_reordered fresh_world)
     = inl ConversionException
  /\ table_rows
       (after (add_starter_data df_source_example df_reviewer_reordered) fresh_world)
       "tbl_reviewer" = [].
Proof.
  split; [vm_compute; reflexivity|]. split; [reflexivity|].
  split; [apply reordered_reviewers_raise; vm_compute; reflexivity|].
  split; vm_compute; reflexivity.
Qed.

Lemma bulk_import_is_positional_witness :
  built fresh_world
  /\ tbl_reviewer ∈ tbl_schema
  /\ match cast_rows (tbl_columns tbl_reviewer) (df_rows df_reviewer_example) with
     | Some rs' =>
         (exists w',
            execute (INSERT_SELECT (tbl_name tbl_reviewer) df_reviewer_example)
                    fresh_world = (inr NoResult, w')
            /\ table_rows w' (tbl_name tbl_reviewer)
               = table_rows fresh_world (tbl_name tbl_reviewer) ++ rs')
         /\ length rs' = length (df_rows df_reviewer_example)
         /\ forall i j cells v,
              df_rows df_reviewer_example !! i = Some cells ->
              cells !! j = Some v ->
              exists c v' r',
                tbl_columns tbl_reviewer !! j = Some c
                /\ cast (snd c) v = Some v'
                /\ rs' !! i = Some r'
                /\ r' !! j = Some v'
     | None =>
         execute (INSERT_SELECT (tbl_name tbl_reviewer) df_reviewer_example)
                 fresh_world = (inl ConversionException, fresh_world)
     end.
Proof.
  assert (built fresh_world) as Hb by (vm_compute; reflexivity).
  split; [exact Hb|]. split; [exact reviewer_in_schema|].
  apply (bulk_import_is_positional fresh_world tbl_reviewer df_reviewer_example
           Hb reviewer_in_schema eq_refl).
Defined.

Lemma null_row_accepted_witness :
  built fresh_world
  /\ tbl_source ∈ tbl_schema
  /\ (forall line, line ∈ describe tbl_source -> dr_null line = "YES")
  /\ exists w',
       execute (INSERT_VALUES "tbl_source" (replicate 18 PyNone)) fresh_world
       = (inr NoResult, w')
       /\ table_rows w' "tbl_source"
          = table_rows fresh_world "tbl_source" ++ [replicate 18 NULL].
Proof.
  assert (built fresh_world) as Hb by (vm_compute; reflexivity).
  split; [exact Hb|]. split; [exact source_in_schema|].
  apply (null_row_accepted fresh_world tbl_source Hb source_in_schema).
Defined.

End Review.

(** * Further properties of the notebook *)

Section Notebook.

Context {engine : Engine}.

(** ** Building the database *)

Lemma create_table_free d w :
  find_table (tbl_name d) (db w) = None ->
  tbl_constraints d = [] ->
  (_ ← execute (CREATE_TABLE d); mret tt : cell unit) w
  = (inr tt, {| db := db w ++ [empty_table d]; files := files w |}).
Proof.
  intros Hfree Hc.
  rewrite (bind_returns _ (fun _ => mret tt) w NoResult
             {| db := db w ++ [empty_table d]; files := files w |});
    [reflexivity|].
  simpl. rewrite Hfree. unfold references_exist. rewrite Hc. reflexivity.
Qed.

Lemma create_table_taken d w :
  is_Some (find_table (tbl_name d) (db w)) ->
  (_ ← execute (CREATE_TABLE d); mret tt : cell unit) w
  = (inl CatalogException, w).
Proof.
  intros Htaken. unfold mbind, cell_bind, bind. simpl.
  rewrite bool_decide_eq_true_2 by exact Htaken. reflexivity.
Qed.

Lemma create_all (ds : list table_def) :
  forall w,
    NoDup (map (fun d => lowercase (tbl_name d)) ds) ->
    Forall (fun d => tbl_constraints d = []) ds ->
    (forall d, d ∈ ds -> find_table (tbl_name d) (db w) = None) ->
    for_each ds (fun d => _ ← execute (CREATE_TABLE d); mret tt) w
    = (inr tt, {| db := db w ++ map empty_table ds; files := files w |}).
Proof.
  induction ds as [|d ds IH]; intros w Hnd Hc Hfree; simpl.
  - rewrite app_nil_r. destruct w; reflexivity.
  - apply NoDup_cons in Hnd as [Hd Hnd]. apply Forall_cons in Hc as [Hcd Hc].
    rewrite (bind_returns _ (fun _ => for_each ds _) w tt
               {| db := db w ++ [empty_table d]; files := files w |}).
    + rewrite IH; [|exact Hnd|exact Hc|].
      * simpl. rewrite <- app_assoc. reflexivity.
      * intros d' Hd'. simpl.
        rewrite find_table_app_None by (apply Hfree; right; exact Hd').
        simpl. rewrite bool_decide_eq_false_2; [reflexivity|].
        intros E. apply Hd. unfold same_name in E. rewrite E.
        apply (list_elem_of_fmap_2 (fun d => lowercase (tbl_name d))). exact Hd'.
    + apply create_table_free; [apply Hfree; left | exact Hcd].
Qed.

Lemma schema_names_distinct (pre post : list table_def) (d : table_def) :
  tbl_schema = pre ++ d :: post ->
  NoDup (map (fun d => lowercase (tbl_name d)) pre)
  /\ Forall (fun d => tbl_constraints d = []) pre.
Proof.
  intros E.
  assert (NoDup (map (fun d => lowercase (tbl_name d)) tbl_schema)) as Hnd
    by (apply (bool_decide_unpack _); vm_compute; exact I).
  assert (Forall (fun d => tbl_constraints d = []) tbl_schema) as Hc
    by (repeat constructor).
  rewrite E in Hnd, Hc. rewrite map_app in Hnd.
  apply NoDup_app in Hnd as [Hnd _]. apply Forall_app in Hc as [Hc _].
  split; assumption.
Qed.

(** X1.  On a database that has none of the four table names, in any
    spelling of upper and lower case, the build cell runs to its end and
    adds the four tables, empty and in the order of the schema text, after
    the tables that were there; rows and files are left alone. *)
Theorem build_database_creates_tables (w : world) :
  (forall d, d ∈ tbl_schema -> find_table (tbl_name d) (db w) = None) ->
  build_database w
  = (inr tt, {| db := db w ++ map empty_table tbl_schema; files := files w |}).
Proof.
  intros Hfree. unfold build_database. apply create_all.
  - apply (bool_decide_unpack _). vm_compute. exact I.
  - repeat constructor.
  - exact Hfree.
Qed.

Lemma build_database_built (w : world) :
  built w -> build_database w = (inl CatalogException, w).
Proof.
  intros Hb. destruct (built_tables w Hb) as (r1 & r2 & r3 & r4 & E).
  destruct w as [cat fs]. simpl in E. subst cat. reflexivity.
Qed.

(** X2.  Running the build cell on a database that is already built raises
    on its first statement and changes nothing: no table is emptied or
    replaced. *)
Theorem build_database_again_raises (w : world) :
  built w -> build_database w = (inl CatalogException, w).
Proof. apply build_database_built. Qed.

(** X3.  The build cell is not all-or-nothing: when the first tables of the
    schema are missing and a later one exists already, under its name in
    any spelling of upper and lower case, the cell raises at that one, and
    the tables created before it stay created. *)
Theorem build_database_stops_midway
    (w : world) (pre post : list table_def) (d : table_def) :
  tbl_schema = pre ++ d :: post ->
  (forall d', d' ∈ pre -> find_table (tbl_name d') (db w) = None) ->
  is_Some (find_table (tbl_name d) (db w)) ->
  build_database w
  = (inl CatalogException,
     {| db := db w ++ map empty_table pre; files := files w |}).
Proof.
  intros E Hfree Htaken. unfold build_database. rewrite E.
  destruct (schema_names_distinct pre post d E) as [Hnd Hc].
  rewrite (for_each_app_returns pre (d :: post) _ w
             {| db := db w ++ map empty_table pre; files := files w |})
    by (apply create_all; assumption).
  apply for_each_cons_raises, create_table_taken.
  simpl. destruct Htaken as [t Ht].
  exists t. clear -Ht. induction pre as [|p pre IH] using rev_ind; simpl.
  - rewrite app_nil_r. exact Ht.
  - rewrite map_app, app_assoc. simpl. apply find_table_app_Some, IH.
Qed.

(** ** Loading the CSV files *)

Lemma fits_Some d df rs :
  fits d df = Some rs ->
  length (df_columns df) = length (tbl_columns d)
  /\ cast_rows (tbl_columns d) (df_rows df) = Some rs.
Proof.
  unfold fits. destruct (bool_decide _) eqn:E; [|discriminate].
  apply bool_decide_eq_true in E. auto.
Qed.

Lemma append_to_nil name w :
  is_Some (find_table name (db w)) -> append_to name [] w = w.
Proof.
  intros [t Ht]. unfold append_to, table_rows. rewrite Ht, app_nil_r.
  rewrite (set_rows_same _ _ _ Ht). destruct w; reflexivity.
Qed.

Lemma append_to_built name rs w : built w -> built (append_to name rs w).
Proof. apply built_set_rows. Qed.

Lemma append_to_rows_eq name rs w :
  is_Some (find_table name (db w)) ->
  table_rows (append_to name rs w) name = table_rows w name ++ rs.
Proof.
  intros [t Ht]. unfold append_to.
  apply (table_rows_set_rows_eq w name t), Ht.
Qed.

Lemma append_to_rows_ne name rs w name' :
  ~ same_name name name' ->
  table_rows (append_to name rs w) name' = table_rows w name'.
Proof. intros Hne. unfold append_to. apply table_rows_set_rows_ne, Hne. Qed.

(** One [INSERT ... SELECT *] into a table of the schema. *)
Lemma insert_select_built w d df :
  built w -> d ∈ tbl_schema ->
  execute (INSERT_SELECT (tbl_name d) df) w =
  match fits d df with
  | Some rs => (inr NoResult, append_to (tbl_name d) rs w)
  | None => (inl (import_error (length (tbl_columns d)) df), w)
  end.
Proof.
  intros Hb Hd. destruct (built_find w d Hb Hd) as [rs0 Hfind].
  unfold fits, import_error. simpl. unfold insert_into. rewrite Hfind. simpl.
  destruct (bool_decide (length (df_columns df) = length (tbl_columns d)));
    simpl; [|reflexivity].
  destruct (cast_rows (tbl_columns d) (df_rows df)) as [rs|]; [|reflexivity].
  rewrite append_rows_unconstrained by (simpl; apply schema_unconstrained, Hd).
  unfold append_to, table_rows. rewrite Hfind. reflexivity.
Qed.

(** The import cell on a built database, by what fits. *)
Lemma add_starter_data_built w df_source df_reviewer :
  built w ->
  add_starter_data df_source df_reviewer w =
  match fits tbl_source df_source with
  | None => (inl (import_error 18 df_source), w)
  | Some rs_s =>
      match fits tbl_reviewer df_reviewer with
      | None => (inl (import_error 2 df_reviewer), append_to "tbl_source" rs_s w)
      | Some rs_r =>
          (inr tt, append_to "tbl_reviewer" rs_r (append_to "tbl_source" rs_s w))
      end
  end.
Proof.
  intros Hb. unfold add_starter_data, mbind, cell_bind, bind.
  pose proof (insert_select_built w tbl_source df_source Hb source_in_schema) as Hs.
  change (tbl_name tbl_source) with "tbl_source" in Hs.
  change (length (tbl_columns tbl_source)) with 18%nat in Hs.
  rewrite Hs. clear Hs.
  destruct (fits tbl_source df_source) as [rs_s|]; [|reflexivity].
  pose proof (insert_select_built _ tbl_reviewer df_reviewer
                (append_to_built "tbl_source" rs_s w Hb) reviewer_in_schema) as Hr.
  change (tbl_name tbl_reviewer) with "tbl_reviewer" in Hr.
  change (length (tbl_columns tbl_reviewer)) with 2%nat in Hr.
  rewrite Hr. clear Hr.
  destruct (fits tbl_reviewer df_reviewer) as [rs_r|]; reflexivity.
Qed.

Lemma view_data_built w :
  built w -> view_data w = (inr (Rows (table_rows w "tbl_source")), w).
Proof.
  intros Hb. destruct (built_find w tbl_source Hb source_in_schema) as [rs Hfind].
  change (tbl_name tbl_source) with "tbl_source" in Hfind.
  unfold view_data, table_rows. simpl. rewrite Hfind. reflexivity.
Qed.

(** X4.  After the import cell has loaded two fitting files into a built
    database, the view cell returns the submissions that were there before
    followed by the rows of the file, converted, in file order; the
    reviewers are extended in the same way and the other two tables are as
    before. *)
Theorem import_then_view
    (w : world) (df_source df_reviewer : dataframe) (rs_s rs_r : list row) :
  built w ->
  fits tbl_source df_source = Some rs_s ->
  fits tbl_reviewer df_reviewer = Some rs_r ->
  exists w',
    (_ ← add_starter_data df_source df_reviewer; view_data) w
    = (inr (Rows (table_rows w "tbl_source" ++ rs_s)), w')
    /\ table_rows w' "tbl_reviewer" = table_rows w "tbl_reviewer" ++ rs_r
    /\ table_rows w' "tbl_response" = table_rows w "tbl_response"
    /\ table_rows w' "tbl_log" = table_rows w "tbl_log"
    /\ files w' = files w.
Proof.
  intros Hb Hs Hr.
  pose proof (add_starter_data_built w df_source df_reviewer Hb) as Hrun.
  rewrite Hs, Hr in Hrun.
  set (w1 := append_to "tbl_source" rs_s w) in *.
  set (w2 := append_to "tbl_reviewer" rs_r w1) in *.
  assert (built w1) as Hb1 by apply append_to_built, Hb.
  assert (built w2) as Hb2 by apply append_to_built, Hb1.
  exists w2. split; [|split; [|split; [|split]]].
  - rewrite (bind_returns _ (fun _ => view_data) w tt w2 Hrun).
    rewrite (view_data_built w2 Hb2). do 3 f_equal.
    subst w2. rewrite append_to_rows_ne by names_differ.
    subst w1. apply append_to_rows_eq.
    apply (built_has_table w tbl_source Hb source_in_schema).
  - subst w2. rewrite append_to_rows_eq
      by apply (built_has_table w1 tbl_reviewer Hb1 reviewer_in_schema).
    subst w1. rewrite append_to_rows_ne by names_differ. reflexivity.
  - subst w2 w1. rewrite !append_to_rows_ne by names_differ. reflexivity.
  - subst w2 w1. rewrite !append_to_rows_ne by names_differ. reflexivity.
  - reflexivity.
Qed.

(** X5.  When the submissions file does not fit (wrong number of columns,
    or a value that the engine does not convert), the import cell raises
    before it touches the reviewers file and leaves the database exactly as
    it was, however good the reviewers file is. *)
Theorem import_rejects_bad_source
    (w : world) (df_source df_reviewer : dataframe) :
  built w ->
  fits tbl_source df_source = None ->
  add_starter_data df_source df_reviewer w
  = (inl (import_error 18 df_source), w).
Proof.
  intros Hb Hs. rewrite (add_starter_data_built w _ _ Hb), Hs. reflexivity.
Qed.

(** X6.  The import cell is not all-or-nothing: when the submissions file
    fits and the reviewers file does not, the cell raises with the
    submissions already inserted and the reviewers untouched. *)
Theorem import_keeps_source_when_reviewers_fail
    (w : world) (df_source df_reviewer : dataframe) (rs_s : list row) :
  built w ->
  fits tbl_source df_source = Some rs_s ->
  fits tbl_reviewer df_reviewer = None ->
  exists w',
    add_starter_data df_source df_reviewer w
    = (inl (import_error 2 df_reviewer), w')
    /\ table_rows w' "tbl_source" = table_rows w "tbl_source" ++ rs_s
    /\ table_rows w' "tbl_reviewer" = table_rows w "tbl_reviewer".
Proof.
  intros Hb Hs Hr. exists (append_to "tbl_source" rs_s w).
  rewrite (add_starter_data_built w _ _ Hb), Hs, Hr.
  split; [reflexivity|]. split.
  - apply append_to_rows_eq, (built_has_table w tbl_source Hb source_in_schema).
  - apply append_to_rows_ne. names_differ.
Qed.

(** X7.  Nothing stops the import cell from loading the same files again:
    run twice on a built database, it leaves every row of both files in
    its table twice. *)
Theorem import_twice_duplicates
    (w : world) (df_source df_reviewer : dataframe) (rs_s rs_r : list row) :
  built w ->
  fits tbl_source df_source = Some rs_s ->
  fits tbl_reviewer df_reviewer = Some rs_r ->
  let w2 := after (add_starter_data df_source df_reviewer)
              (after (add_starter_data df_source df_reviewer) w) in
  table_rows w2 "tbl_source" = table_rows w "tbl_source" ++ rs_s ++ rs_s
  /\ table_rows w2 "tbl_reviewer" = table_rows w "tbl_reviewer" ++ rs_r ++ rs_r.
Proof.
  intros Hb Hs Hr.
  assert (forall w0, built w0 ->
            built (after (add_starter_data df_source df_reviewer) w0)
            /\ table_rows (after (add_starter_data df_source df_reviewer) w0)
                 "tbl_source" = table_rows w0 "tbl_source" ++ rs_s
            /\ table_rows (after (add_starter_data df_source df_reviewer) w0)
                 "tbl_reviewer" = table_rows w0 "tbl_reviewer" ++ rs_r) as Hone.
  { intros w0 Hb0. unfold after.
    rewrite (add_starter_data_built w0 _ _ Hb0), Hs, Hr. simpl.
    assert (built (append_to "tbl_source" rs_s w0)) as Hb1
      by apply append_to_built, Hb0.
    split; [apply append_to_built, Hb1|]. split.
    - rewrite append_to_rows_ne by names_differ.
      apply append_to_rows_eq, (built_has_table w0 tbl_source Hb0 source_in_schema).
    - rewrite append_to_rows_eq
        by apply (built_has_table _ tbl_reviewer Hb1 reviewer_in_schema).
      rewrite append_to_rows_ne by names_differ. reflexivity. }
  destruct (Hone w Hb) as (Hb1 & Hs1 & Hr1).
  destruct (Hone _ Hb1) as (_ & Hs2 & Hr2).
  simpl. rewrite Hs2, Hr2, Hs1, Hr1, <- !app_assoc. split; reflexivity.
Qed.

(** X8.  Files with a header line and no rows load without error and change
    nothing, as long as each has the column count of its table. *)
Theorem import_of_empty_files (w : world) (df_source df_reviewer : dataframe) :
  built w ->
  length (df_columns df_source) = 18%nat -> df_rows df_source = [] ->
  length (df_columns df_reviewer) = 2%nat -> df_rows df_reviewer = [] ->
  add_starter_data df_source df_reviewer w = (inr tt, w).
Proof.
  intros Hb Hws Hrs Hwr Hrr.
  rewrite (add_starter_data_built w _ _ Hb). unfold fits.
  rewrite Hrs, Hrr, !bool_decide_eq_true_2 by assumption. simpl.
  rewrite (append_to_nil "tbl_source" w)
    by apply (built_has_table w tbl_source Hb source_in_schema).
  rewrite (append_to_nil "tbl_reviewer" w)
    by apply (built_has_table w tbl_reviewer Hb reviewer_in_schema).
  reflexivity.
Qed.

(** X9.  Before the database is built, the cells that name a table raise a
    catalog error and change nothing, [SHOW TABLES] lists no table, and the
    dump cell ends without writing a file. *)
Theorem cells_before_build
    (w : world) (df_source df_reviewer : dataframe) (data_directory : string) :
  db w = [] ->
  add_starter_data df_source df_reviewer w = (inl CatalogException, w)
  /\ view_data w = (inl CatalogException, w)
  /\ describe_response w = (inl CatalogException, w)
  /\ check_build w = (inr [], w)
  /\ dump_database data_directory w = (inr tt, w).
Proof.
  intros E. destruct w as [cat fs]. simpl in E. subst cat.
  repeat split.
Qed.

(** ** Dumping any database *)

Lemma find_table_NoDup (cat : list table) (t : table) :
  NoDup (map (fun t0 => lowercase (tbl_name (tdef t0))) cat) ->
  t ∈ cat ->
  find_table (tbl_name (tdef t)) cat = Some t.
Proof.
  unfold find_table. induction cat as [|t0 cat IH]; intros Hnd Hin; simpl.
  - inversion Hin.
  - simpl in Hnd. apply NoDup_cons in Hnd as [Hfresh Hnd].
    apply elem_of_cons in Hin as [->|Hin].
    + rewrite bool_decide_eq_true_2 by reflexivity. reflexivity.
    + rewrite bool_decide_eq_false_2; [apply IH; assumption|].
      intros E. apply Hfresh. unfold same_name in E. rewrite E.
      apply (list_elem_of_fmap_2 (fun t0 => lowercase (tbl_name (tdef t0)))), Hin.
Qed.

Lemma show_tables_names w :
  execute SHOW_TABLES w = (inr (Names (merge_sort String.le (table_names w))), w).
Proof. reflexivity. Qed.

Lemma dump_database_spec (data_directory : string) (w : world) :
  quote_free data_directory = true ->
  (forall t, t ∈ db w -> unquoted_identifier (tbl_name (tdef t)) = true) ->
  NoDup (map lowercase (table_names w)) ->
  exists w',
    dump_database data_directory w = (inr tt, w')
    /\ db w' = db w
    /\ (forall t, t ∈ db w ->
          files w' !! dumped_db_file data_directory (tbl_name (tdef t))
          = Some (snapshot t))
    /\ (forall p,
          (forall t, t ∈ db w ->
             p <> dumped_db_file data_directory (tbl_name (tdef t))) ->
          files w' !! p = files w !! p).
Proof.
  intros Hq Hbare Hnd.
  assert (NoDup (map (fun t0 => lowercase (tbl_name (tdef t0))) (db w))) as Hnd'.
  { unfold table_names in Hnd. rewrite map_map in Hnd. exact Hnd. }
  assert (forall n, n ∈ merge_sort String.le (table_names w) <->
                    exists t, t ∈ db w /\ n = tbl_name (tdef t)) as Hnames.
  { intros n. rewrite merge_sort_Permutation. unfold table_names.
    rewrite (list_elem_of_fmap (fun t => tbl_name (tdef t))).
    split; intros (t & ? & ?); exists t; auto. }
  destruct (dump_loop data_directory (merge_sort String.le (table_names w)) w)
    as (w' & Hrun & Hdb & Hin & Hout).
  { rewrite merge_sort_Permutation. apply (NoDup_fmap_1 lowercase), Hnd. }
  { intros n Hn. apply Hnames in Hn as (t & Ht & ->).
    apply copy_statement_bare; [exact Hq | apply Hbare, Ht]. }
  { intros n Hn. apply Hnames in Hn as (t & Ht & ->).
    rewrite (find_table_NoDup _ _ Hnd' Ht). eauto. }
  exists w'. split; [|split; [|split]].
  - unfold dump_database.
    rewrite (bind_returns _ _ _ _ _ (show_tables_names w)). exact Hrun.
  - exact Hdb.
  - intros t Ht. destruct (Hin (tbl_name (tdef t))) as (t0 & Hfind & Hfile).
    { apply Hnames. eauto. }
    rewrite (find_table_NoDup _ _ Hnd' Ht) in Hfind. injection Hfind as <-.
    exact Hfile.
  - intros p Hp. apply Hout. intros n Hn.
    apply Hnames in Hn as (t & Ht & ->). apply Hp, Ht.
Qed.

(** X10.  On any database, built from the schema or not, whose tables have
    bare names (the shape of an identifier, no reserved word) that differ
    in more than case, and with a data directory whose name holds no single
    quote, the dump cell runs to its end, writes for every table the file
    [data_<name>.parquet] with that table's columns and rows, and leaves
    every other file as it was. *)
Theorem dump_database_covers_every_table (data_directory : string) (w : world) :
  quote_free data_directory = true ->
  (forall t, t ∈ db w -> unquoted_identifier (tbl_name (tdef t)) = true) ->
  NoDup (map lowercase (table_names w)) ->
  exists w',
    dump_database data_directory w = (inr tt, w')
    /\ (forall t, t ∈ db w ->
          files w' !! os_path_join data_directory
                        ("data_" +:+ tbl_name (tdef t) +:+ ".parquet")
          = Some {| pq_columns := tbl_columns (tdef t); pq_rows := trows t |})
    /\ (forall p,
          (forall t, t ∈ db w ->
             p <> os_path_join data_directory
                    ("data_" +:+ tbl_name (tdef t) +:+ ".parquet")) ->
          files w' !! p = files w !! p).
Proof.
  intros Hq Hbare Hnd.
  destruct (dump_database_spec data_directory w Hq Hbare Hnd)
    as (w' & Hrun & _ & Hin & Hout).
  exists w'. split; [exact Hrun|]. split; [exact Hin | exact Hout].
Qed.

Lemma write_all_snoc ws x fs :
  write_all (ws ++ [x]) fs = <[fst x := snd x]> (write_all ws fs).
Proof. unfold write_all. rewrite fold_left_app. reflexivity. Qed.

Lemma write_all_lookup_notin ws fs p :
  p ∉ map fst ws -> write_all ws fs !! p = fs !! p.
Proof.
  revert fs. induction ws as [|x ws IH]; intros fs Hp; [reflexivity|].
  simpl in Hp. apply not_elem_of_cons in Hp as [Hx Hp].
  change (write_all ws (<[fst x := snd x]> fs) !! p = fs !! p).
  rewrite IH by exact Hp. apply lookup_insert_ne. congruence.
Qed.

Lemma write_all_lookup_in ws p :
  p ∈ map fst ws -> exists f, forall fs, write_all ws fs !! p = Some f.
Proof.
  induction ws as [|x ws IH] using rev_ind; intros Hp; [inversion Hp|].
  destruct (decide (fst x = p)) as [E|Hne].
  - exists (snd x). intros fs. rewrite write_all_snoc, E. apply lookup_insert_eq.
  - rewrite map_app in Hp. apply elem_of_app in Hp as [Hp|Hp].
    + destruct (IH Hp) as [f Hf]. exists f. intros fs.
      rewrite write_all_snoc, lookup_insert_ne by exact Hne. apply Hf.
    + simpl in Hp. apply list_elem_of_singleton in Hp. congruence.
Qed.

(** Writing the same files again changes nothing. *)
Lemma write_all_twice ws fs : write_all ws (write_all ws fs) = write_all ws fs.
Proof.
  apply map_eq. intros p. destruct (decide (p ∈ map fst ws)) as [Hin|Hout].
  - destruct (write_all_lookup_in ws p Hin) as [f Hf]. rewrite !Hf. reflexivity.
  - rewrite write_all_lookup_notin by exact Hout. reflexivity.
Qed.

(** The loop of the dump cell, as the list of its writes: it leaves the
    database alone and writes the files of [dump_writes], whether it runs
    to its end or raises on the way. *)
Lemma dump_loop_after data_directory (names : list string) :
  forall w,
    after (for_each names
             (fun table0 =>
                _ ← execute_copy table0 (dumped_db_file data_directory table0);
                mret tt)) w
    = {| db := db w;
         files := write_all (dump_writes data_directory (db w) names) (files w) |}.
Proof.
  set (body := fun table0 : string =>
                 (_ ← execute_copy table0 (dumped_db_file data_directory table0);
                  mret tt : cell unit)).
  induction names as [|n ns IH]; intros w; [destruct w; reflexivity|].
  destruct (copy_statement n (dumped_db_file data_directory n)) as [s|] eqn:E.
  - pose proof (copy_statement_Some _ _ _ E) as ->.
    destruct (find_table n (db w)) as [t|] eqn:F.
    + unfold after.
      rewrite (for_each_cons_returns n ns body w _ (execute_copy_found _ _ _ _ E F)).
      fold (after (for_each ns body)
              {| db := db w;
                 files := <[dumped_db_file data_directory n := snapshot t]> (files w) |}).
      rewrite IH. simpl. rewrite E, F. reflexivity.
    + unfold after.
      rewrite (for_each_cons_raises n ns body w _ _ (execute_copy_missing _ _ _ E F)).
      simpl. rewrite E, F. destruct w; reflexivity.
  - unfold after.
    rewrite (for_each_cons_raises n ns body w _ _ (execute_copy_rejected _ _ _ E)).
    simpl. rewrite E. destruct w; reflexivity.
Qed.

Lemma dump_database_after data_directory w :
  after (dump_database data_directory) w
  = {| db := db w;
       files := write_all (dump_writes data_directory (db w)
                             (merge_sort String.le (table_names w)))
                          (files w) |}.
Proof.
  unfold after at 1, dump_database.
  rewrite (bind_returns _ _ _ _ _ (show_tables_names w)).
  apply dump_loop_after.
Qed.

(** X11.  Dumping twice is the same as dumping once: the second run
    rewrites every file with the content it already has. *)
Theorem dump_database_idempotent (data_directory : string) (w : world) :
  NoDup (table_names w) ->
  after (dump_database data_directory) (after (dump_database data_directory) w)
  = after (dump_database data_directory) w.
Proof.
  intros _. rewrite !dump_database_after. simpl.
  unfold table_names. simpl. rewrite write_all_twice. reflexivity.
Qed.

(** X12.  Two different tables never share a dump file, whatever the data
    directory: the file name determines the table. *)
Theorem dump_files_are_distinct (data_directory n n' : string) :
  n <> n' ->
  os_path_join data_directory ("data_" +:+ n +:+ ".parquet")
  <> os_path_join data_directory ("data_" +:+ n' +:+ ".parquet").
Proof.
  intros Hne E. apply Hne. apply (dumped_db_file_inj data_directory). exact E.
Qed.

Lemma dump_path_not_input (data_directory n : string) :
  dumped_db_file data_directory n <> db_file data_directory
  /\ dumped_db_file data_directory n <> tbl_reviewer_file data_directory
  /\ dumped_db_file data_directory n <> tbl_source_file data_directory.
Proof.
  unfold dumped_db_file, db_file, tbl_reviewer_file, tbl_source_file.
  destruct (os_path_join_relative data_directory "data.duckdb") as [prefix Hp];
    [reflexivity|].
  rewrite !Hp by reflexivity.
  repeat split; intros E; apply String.app_inj in E;
    vm_compute in E; discriminate E.
Qed.

Lemma dump_database_other_paths (data_directory p : string) (w : world) :
  (forall n, p <> dumped_db_file data_directory n) ->
  files (after (dump_database data_directory) w) !! p = files w !! p.
Proof.
  intros Hp. revert w.
  set (R := fun w w' : world => files w' !! p = files w !! p).
  assert (forall w, R w w) as Rrefl by reflexivity.
  assert (forall w1 w2 w3, R w1 w2 -> R w2 w3 -> R w1 w3) as Rtrans
    by (unfold R; congruence).
  apply (bind_related R Rtrans); [reflexivity|].
  intros a. apply (for_each_related R Rrefl Rtrans).
  intros n. apply (bind_related R Rtrans); [|intros _; apply Rrefl].
  intros w. unfold R, after, execute_copy.
  destruct (copy_statement n (dumped_db_file data_directory n)) as [s|] eqn:E;
    [|reflexivity].
  apply copy_statement_Some in E. subst s. simpl.
  destruct (find_table n (db w)); simpl; [|reflexivity].
  apply lookup_insert_ne. intros E. apply (Hp n). symmetry. exact E.
Qed.

(** X13.  The dump never writes over the database file or over the two CSV
    files of the data directory: no table name gives a dump path equal to
    [data.duckdb], [tbl_reviewers.csv] or [tbl_source.csv] there, and what
    is stored at these three paths is the same after the dump. *)
Theorem dump_spares_database_and_inputs (data_directory : string) (w : world) :
  (forall n,
     os_path_join data_directory ("data_" +:+ n +:+ ".parquet")
     <> db_file data_directory
     /\ os_path_join data_directory ("data_" +:+ n +:+ ".parquet")
        <> tbl_reviewer_file data_directory
     /\ os_path_join data_directory ("data_" +:+ n +:+ ".parquet")
        <> tbl_source_file data_directory)
  /\ files (after (dump_database data_directory) w) !! db_file data_directory
     = files w !! db_file data_directory
  /\ files (after (dump_database data_directory) w) !! tbl_reviewer_file data_directory
     = files w !! tbl_reviewer_file data_directory
  /\ files (after (dump_database data_directory) w) !! tbl_source_file data_directory
     = files w !! tbl_source_file data_directory.
Proof.
  split; [intros n; apply dump_path_not_input|].
  repeat split; apply dump_database_other_paths; intros n E;
    destruct (dump_path_not_input data_directory n) as (H1 & H2 & H3);
    [apply H1 | apply H2 | apply H3]; symmetry; exact E.
Qed.

(** ** Any sequence of cells *)

Lemma run_cell_keeps name c w :
  ~ same_name "tbl_source" name -> ~ same_name "tbl_reviewer" name ->
  keeps name w (run_cell c w).
Proof.
  intros H1 H2. destruct c; simpl.
  - apply build_database_keeps.
  - reflexivity.
  - apply execute_keeps. intros target H. discriminate H.
  - apply add_starter_data_keeps; assumption.
  - apply execute_keeps. intros target H. discriminate H.
  - unfold keeps, table_rows. rewrite dump_database_same_db. reflexivity.
Qed.

Lemma run_cell_same_defs c w :
  is_build c = false -> same_defs w (run_cell c w).
Proof.
  intros Hc. destruct c; try discriminate; simpl.
  - reflexivity.
  - apply execute_same_defs. reflexivity.
  - apply add_starter_data_same_defs.
  - apply execute_same_defs. reflexivity.
  - unfold same_defs. rewrite dump_database_same_db. reflexivity.
Qed.

Lemma run_cell_built c w : built w -> built (run_cell c w).
Proof.
  intros Hb. destruct (is_build c) eqn:Hc.
  - destruct c; try discriminate. simpl. unfold after.
    rewrite build_database_built by exact Hb. exact Hb.
  - unfold built. rewrite (run_cell_same_defs c w Hc). exact Hb.
Qed.

Lemma run_notebook_built cs w : built w -> built (run_notebook cs w).
Proof.
  apply (fold_invariant built run_cell). intros c w0. apply run_cell_built.
Qed.

(** X14.  The notebook writes rows into [tbl_source] and [tbl_reviewer]
    only: whatever cells run, every other table, the responses and the
    conflict log among them, has the rows it had.  A table is another one
    when its name differs from these two in more than case. *)
Theorem notebook_writes_only_loaded_tables
    (cs : list notebook_cell) (w : world) (name : string) :
  ~ same_name name "tbl_source" -> ~ same_name name "tbl_reviewer" ->
  table_rows (run_notebook cs w) name = table_rows w name.
Proof.
  intros H1 H2.
  apply (fold_related (keeps name) (keeps_refl name) (keeps_trans name) run_cell).
  intros c w0. apply run_cell_keeps; intros E; [apply H1 | apply H2];
    apply same_name_sym, E.
Qed.

(** X15.  No cell drops, renames or alters a table: once the database is
    built, it has the four table definitions of the schema after any cells. *)
Theorem notebook_keeps_schema (cs : list notebook_cell) (w : world) :
  built w -> map tdef (db (run_notebook cs w)) = tbl_schema.
Proof. apply run_notebook_built. Qed.

(** X16.  Starting from the empty database file, the notebook never leaves
    a part of the schema behind: after any cells the database has the four
    tables if the build cell was among them, and no table at all if it was
    not. *)
Theorem notebook_builds_all_or_nothing (cs : list notebook_cell) :
  if existsb is_build cs
  then built (run_notebook cs empty_world)
  else db (run_notebook cs empty_world) = [].
Proof.
  assert (forall w, db w = [] ->
            if existsb is_build cs
            then built (run_notebook cs w)
            else db (run_notebook cs w) = []) as H; [|apply H; reflexivity].
  induction cs as [|c cs IH]; intros w Hw; simpl; [exact Hw|].
  destruct (is_build c) eqn:Hc; simpl.
  - apply run_notebook_built. destruct c; try discriminate. simpl.
    destruct (build_database_empty_or_built w (or_introl Hw)) as [E|Hb];
      [|exact Hb].
    exfalso. destruct w as [cat fs]. simpl in Hw. subst cat. discriminate E.
  - apply IH. pose proof (run_cell_same_defs c w Hc) as Hd.
    unfold same_defs in Hd. rewrite Hw in Hd. simpl in Hd.
    apply map_eq_nil in Hd. exact Hd.
Qed.

Lemma run_cell_conforms c w : db_conforms w -> db_conforms (run_cell c w).
Proof.
  destruct c; simpl.
  - apply (for_each_invariant db_conforms). intros d.
    apply (bind_invariant db_conforms); [intros w0; apply execute_conforms|].
    intros _ w0 H. exact H.
  - intros H. exact H.
  - apply execute_conforms.
  - apply (bind_invariant db_conforms); [intros w0; apply execute_conforms|].
    intros _. apply (bind_invariant db_conforms);
      [intros w0; apply execute_conforms|].
    intros _ w0 H. exact H.
  - apply execute_conforms.
  - unfold db_conforms. rewrite dump_database_same_db. intros H. exact H.
Qed.

(** X18.  Whatever the notebook stores is typed by the schema: after any
    cells from the empty database file, every row of every table has
    exactly one value per column of its table, each NULL or of the type the
    column declares. *)
Theorem notebook_rows_are_typed (cs : list notebook_cell) (t : table) (r : row) :
  t ∈ db (run_notebook cs empty_world) ->
  r ∈ trows t ->
  length r = length (tbl_columns (tdef t))
  /\ forall j c v,
       tbl_columns (tdef t) !! j = Some c -> r !! j = Some v ->
       has_type (snd c) v.
Proof.
  intros Ht Hr.
  assert (db_conforms (run_notebook cs empty_world)) as Hconf.
  { apply (fold_invariant db_conforms run_cell).
    - intros c w. apply run_cell_conforms.
    - constructor. }
  unfold db_conforms in Hconf. rewrite Forall_forall in Hconf.
  specialize (Hconf t Ht). rewrite Forall_forall in Hconf.
  specialize (Hconf r Hr). unfold row_conforms in Hconf. split.
  - symmetry. eapply Forall2_length, Hconf.
  - intros j c v Hc Hv.
    destruct (Forall2_lookup_l _ _ _ _ _ Hconf Hc) as (v' & Hv' & Hty).
    pose proof (eq_trans (eq_sym Hv) Hv') as E. injection E as ->. exact Hty.
Qed.

End Notebook.

(** ** The further properties at work on the examples *)

Section NotebookExamples.

#[local] Existing Instance example_engine.

Lemma build_database_creates_tables_witness :
  build_database empty_world
  = (inr tt, {| db := db empty_world ++ map empty_table tbl_schema;
                files := files empty_world |}).
Proof.
  apply (build_database_creates_tables empty_world).
  intros d Hd. reflexivity.
Defined.

Lemma build_database_again_raises_witness :
  built loaded_world
  /\ build_database loaded_world = (inl CatalogException, loaded_world).
Proof.
  assert (built loaded_world) as Hb by (vm_compute; reflexivity).
  split; [exact Hb|].
  apply (build_database_again_raises loaded_world Hb).
Defined.

Lemma build_database_stops_midway_witness :
  build_database half_built_world
  = (inl CatalogException,
     {| db := db half_built_world ++ map empty_table [tbl_log];
        files := files half_built_world |}).
Proof.
  apply (build_database_stops_midway half_built_world [tbl_log]
           [tbl_reviewer; tbl_source] tbl_response).
  - reflexivity.
  - intros d' Hd'. apply list_elem_of_In in Hd'. simpl in Hd'.
    destruct Hd' as [<-|[]]. reflexivity.
  - vm_compute. eexists. reflexivity.
Defined.

(** A table named [TBL_LOG] is the table [tbl_log] for the catalog: the
    build cell raises at its first statement and creates nothing. *)
Lemma build_database_sees_capitals :
  is_Some (find_table "tbl_log" (db capitals_world))
  /\ build_database capitals_world = (inl CatalogException, capitals_world).
Proof. split; [vm_compute; eexists; reflexivity | vm_compute; reflexivity]. Qed.

Lemma import_then_view_witness :
  exists w',
    (_ ← add_starter_data df_source_example df_reviewer_example; view_data)
      fresh_world
    = (inr (Rows (table_rows fresh_world "tbl_source"
                  ++ table_rows loaded_world "tbl_source")), w')
    /\ table_rows w' "tbl_reviewer"
       = table_rows fresh_world "tbl_reviewer"
         ++ table_rows loaded_world "tbl_reviewer"
    /\ table_rows w' "tbl_response" = table_rows fresh_world "tbl_response"
    /\ table_rows w' "tbl_log" = table_rows fresh_world "tbl_log"
    /\ files w' = files fresh_world.
Proof.
  apply (import_then_view fresh_world df_source_example df_reviewer_example).
  - vm_compute. reflexivity.
  - vm_compute. reflexivity.
  - vm_compute. reflexivity.
Defined.

Lemma import_rejects_bad_source_witness :
  add_starter_data df_reviewer_example df_reviewer_example loaded_world
  = (inl BinderException, loaded_world).
Proof.
  apply (import_rejects_bad_source loaded_world df_reviewer_example
           df_reviewer_example).
  - vm_compute. reflexivity.
  - vm_compute. reflexivity.
Defined.

Lemma import_keeps_source_when_reviewers_fail_witness :
  exists w',
    add_starter_data df_source_example df_reviewer_bad fresh_world
    = (inl ConversionException, w')
    /\ table_rows w' "tbl_source"
       = table_rows fresh_world "tbl_source" ++ table_rows loaded_world "tbl_source"
    /\ table_rows w' "tbl_reviewer" = table_rows fresh_world "tbl_reviewer".
Proof.
  apply (import_keeps_source_when_reviewers_fail fresh_world df_source_example
           df_reviewer_bad).
  - vm_compute. reflexivity.
  - vm_compute. reflexivity.
  - vm_compute. reflexivity.
Defined.

Lemma import_twice_duplicates_witness :
  table_rows
    (after (add_starter_data df_source_example df_reviewer_example)
       (after (add_starter_data df_source_example df_reviewer_example)
          fresh_world)) "tbl_reviewer"
  = table_rows fresh_world "tbl_reviewer"
    ++ table_rows loaded_world "tbl_reviewer"
    ++ table_rows loaded_world "tbl_reviewer".
Proof.
  apply (import_twice_duplicates fresh_world df_source_example
           df_reviewer_example (table_rows loaded_world "tbl_source")).
  - vm_compute. reflexivity.
  - vm_compute. reflexivity.
  - vm_compute. reflexivity.
Defined.

Lemma import_of_empty_files_witness :
  add_starter_data df_source_empty df_reviewer_empty loaded_world
  = (inr tt, loaded_world).
Proof.
  apply (import_of_empty_files loaded_world df_source_empty df_reviewer_empty).
  - vm_compute. reflexivity.
  - reflexivity.
  - reflexivity.
  - reflexivity.
  - reflexivity.
Defined.

Lemma cells_before_build_witness :
  add_starter_data df_source_example df_reviewer_example empty_world
  = (inl CatalogException, empty_world)
  /\ view_data empty_world = (inl CatalogException, empty_world)
  /\ describe_response empty_world = (inl CatalogException, empty_world)
  /\ check_build empty_world = (inr [], empty_world)
  /\ dump_database "/srv/workshop/data" empty_world = (inr tt, empty_world).
Proof.
  apply (cells_before_build empty_world df_source_example df_reviewer_example
           "/srv/workshop/data").
  reflexivity.
Defined.

Lemma dump_database_covers_every_table_witness :
  quote_free "/srv/workshop/data" = true
  /\ (forall t, t ∈ db unsorted_world ->
        unquoted_identifier (tbl_name (tdef t)) = true)
  /\ NoDup (map lowercase (table_names unsorted_world))
  /\ exists w',
       dump_database "/srv/workshop/data" unsorted_world = (inr tt, w')
       /\ (forall t, t ∈ db unsorted_world ->
             files w' !! os_path_join "/srv/workshop/data"
                           ("data_" +:+ tbl_name (tdef t) +:+ ".parquet")
             = Some {| pq_columns := tbl_columns (tdef t); pq_rows := trows t |})
       /\ (forall p,
             (forall t, t ∈ db unsorted_world ->
                p <> os_path_join "/srv/workshop/data"
                       ("data_" +:+ tbl_name (tdef t) +:+ ".parquet")) ->
             files w' !! p = files unsorted_world !! p).
Proof.
  assert (forall t, t ∈ db unsorted_world ->
            unquoted_identifier (tbl_name (tdef t)) = true) as Hbare.
  { intros t Ht. unfold unsorted_world in Ht. simpl in Ht.
    repeat (apply elem_of_cons in Ht as [->|Ht]); [reflexivity..|inversion Ht]. }
  assert (NoDup (map lowercase (table_names unsorted_world))) as Hnd.
  { apply (bool_decide_unpack _). vm_compute. exact I. }
  split; [reflexivity|]. split; [exact Hbare|]. split; [exact Hnd|].
  apply (dump_database_covers_every_table "/srv/workshop/data" unsorted_world
           eq_refl Hbare Hnd).
Defined.

(** A table whose name is a reserved word stops the dump: the files of the
    tables before it in alphabetical order are written, the cell raises at
    the reserved word, and the tables after it are not dumped. *)
Lemma dump_stops_at_reserved_word :
  dump_database "/srv/workshop/data" reserved_world
  = (inl ParserException,
     {| db := db reserved_world;
        files := {[ "/srv/workshop/data/data_a.parquet" :=
                      {| pq_columns := [("x", INTEGER)]; pq_rows := [[VInt 1]] |} ]} |}).
Proof. vm_compute. reflexivity. Qed.

Lemma dump_database_idempotent_witness :
  after (dump_database "/srv/workshop/data")
    (after (dump_database "/srv/workshop/data") loaded_world)
  = after (dump_database "/srv/workshop/data") loaded_world.
Proof.
  apply (dump_database_idempotent "/srv/workshop/data" loaded_world).
  apply (bool_decide_unpack _). vm_compute. exact I.
Defined.

Lemma dump_files_are_distinct_witness :
  os_path_join "/srv/workshop/data" ("data_" +:+ "tbl_log" +:+ ".parquet")
  <> os_path_join "/srv/workshop/data" ("data_" +:+ "tbl_source" +:+ ".parquet").
Proof.
  apply (dump_files_are_distinct "/srv/workshop/data" "tbl_log" "tbl_source").
  discriminate.
Defined.

Lemma notebook_writes_only_loaded_tables_witness :
  table_rows (run_notebook notebook_example reviewed_world) "tbl_response"
  = table_rows reviewed_world "tbl_response".
Proof.
  apply (notebook_writes_only_loaded_tables notebook_example reviewed_world
           "tbl_response"); names_differ.
Defined.

Lemma notebook_keeps_schema_witness :
  map tdef (db (run_notebook notebook_example loaded_world)) = tbl_schema.
Proof.
  apply (notebook_keeps_schema notebook_example loaded_world).
  vm_compute. reflexivity.
Defined.

Lemma notebook_rows_are_typed_witness :
  reviewer_table_example ∈ db (run_notebook notebook_example empty_world)
  /\ length [VInt 2; VStr "Grace"] = length (tbl_columns tbl_reviewer)
  /\ forall j c v,
       tbl_columns tbl_reviewer !! j = Some c ->
       [VInt 2; VStr "Grace"] !! j = Some v ->
       has_type (snd c) v.
Proof.
  assert (reviewer_table_example ∈ db (run_notebook notebook_example empty_world))
    as Hin.
  { apply list_elem_of_In. vm_compute. right. right. left. reflexivity. }
  split; [exact Hin|].
  apply (notebook_rows_are_typed notebook_example reviewer_table_example
           [VInt 2; VStr "Grace"] Hin).
  apply list_elem_of_In. simpl. auto.
Defined.

End NotebookExamples.
